(** * todoist-cli: the API client's transport, decoding and name resolution

    A shallow embedding of the parts of [internal/api/client.go] and of
    the commands under [cmd/todoist] (add, update, move, tasks) that
    decide the behaviour of the request and retry pipeline, of list
    decoding, of the priority conversion, of lookup by name and of the
    concurrent comment fetches of the tasks command; and, around them,
    of the URL of a request, of the search, view, delete and auth
    commands, of the order of the task listing, of [internal/config]
    and of the task tree and the completed tasks of [internal/output].

    Conventions.  Go's [int] and [time.Duration] are 64-bit: they are
    modelled as [Z] with the wrap-around written out ([wrap64]).  A Go
    [string] and a [[]byte] are sequences of bytes: both are [string].
    A Go [(T, error)] result is [result T].  What the network, the clock
    and the context do is read from an explicit environment ([Env]), and
    what the transport does to them is recorded in a trace of events.
    The goroutines of the tasks command are run under a schedule, the
    order in which they start and finish.  What the Unicode tables of
    [strings.ToLower] and of the key matching of [encoding/json] say
    stays a parameter. *)

From Stdlib Require Import ZArith List String Ascii Bool Lia DecimalString.
From Stdlib Require Import Permutation Sorted OrderedTypeEx.
Import ListNotations.

#[local] Set Warnings "-register-all".

Local Open Scope string_scope.
Local Open Scope Z_scope.

(** ** Go values *)

(** 64-bit signed wrap-around, as Go's [int64] arithmetic has it. *)
Definition wrap64 (z : Z) : Z := (z + 2 ^ 63) mod 2 ^ 64 - 2 ^ 63.

Definition inInt64 (z : Z) : bool := (- 2 ^ 63 <=? z) && (z <? 2 ^ 63).

(** [%d] of an [int]. *)
Definition itoa (z : Z) : string := NilZero.string_of_int (Z.to_int z).

(** The error values the modelled code builds or passes on. *)
Inductive error : Type :=
| ErrorString (msg : string)
    (* fmt.Errorf without %w *)
| WrapError (msg : string) (cause : error)
    (* fmt.Errorf("msg: %w", cause) *)
| WrapNil (msg : string)
    (* fmt.Errorf("msg: %w", nil) *)
| RetryAfterError (after : Z)
    (* &retryAfterError{after: after} *)
| NetworkError (msg : string) (cause : error)
    (* clerrors.WrapNetworkError(msg, cause) *)
| AuthError (msg : string) (cause : error)
    (* clerrors.WrapAuthError(msg, cause) *)
| Canceled
    (* context.Canceled *)
| DeadlineExceeded
    (* context.DeadlineExceeded *)
| SyntaxError
    (* *json.SyntaxError: the bytes are not a JSON text *)
| UnmarshalTypeError (value : string) (goType : string)
    (* *json.UnmarshalTypeError: a JSON value that does not fit the target *)
| LibraryError (msg : string).
    (* any other error value of net/http, io, net/url or encoding/json *)

(** [fmt.Errorf("msg: %w", err)] for an [err] that may be nil. *)
Definition Errorf_w (msg : string) (err : option error) : error :=
  match err with
  | Some e => WrapError msg e
  | None => WrapNil msg
  end.

Inductive result (A : Type) : Type :=
| Ok (a : A)
| Err (e : error).
Arguments Ok {A} a.
Arguments Err {A} e.

(** Modelled from the spec: the package [internal/errors] ([clerrors]) is
    not among the sources.  The spec's failure taxonomy names a
    NetworkFailure for transport-level errors and an AuthFailure for 401
    and 403; the two wrappers build these classifications around the
    message and the cause they are given. *)
Module clerrors.
Definition WrapNetworkError (msg : string) (cause : error) : error :=
  NetworkError msg cause.
Definition WrapAuthError (msg : string) (cause : error) : error :=
  AuthError msg cause.
End clerrors.

(** ** strconv.Atoi *)

Module strconv.

Definition isDigit (c : ascii) : bool :=
  let n := nat_of_ascii c in (48 <=? n)%nat && (n <=? 57)%nat.

Definition digitValue (c : ascii) : Z := Z.of_nat (nat_of_ascii c) - 48.

Fixpoint parseDigits (s : string) (acc : Z) : option Z :=
  match s with
  | EmptyString => Some acc
  | String c s' =>
      if isDigit c then parseDigits s' (10 * acc + digitValue c) else None
  end.

(** An optional sign, then at least one decimal digit and nothing else;
    a value outside [int] is a range error.  ([Atoi] is base 10: no
    prefix and no underscore is accepted.) *)
Definition Atoi (s : string) : option Z :=
  match s with
  | EmptyString => None
  | String c rest =>
      let neg := Ascii.eqb c "-" in
      let digits := if neg || Ascii.eqb c "+" then rest else s in
      match digits with
      | EmptyString => None
      | _ =>
          match parseDigits digits 0 with
          | Some n =>
              let v := if neg then - n else n in
              if inInt64 v then Some v else None
          | None => None
          end
      end
  end.

End strconv.

(** ** time.Duration *)

Module time.
(** A [Duration] is an [int64] count of nanoseconds. *)
Definition Second : Z := 1000000000.

(** [time.Duration(n) * time.Second]. *)
Definition Seconds (n : Z) : Z := wrap64 (n * Second).
End time.

(** ** strings.ToLower and strings.Contains *)

Module strings.

Definition isASCII (s : string) : bool :=
  forallb (fun c => (nat_of_ascii c <? 128)%nat) (list_ascii_of_string s).

Definition lowerByte (c : ascii) : ascii :=
  let n := nat_of_ascii c in
  if (65 <=? n)%nat && (n <=? 90)%nat then ascii_of_nat (n + 32) else c.

Fixpoint mapBytes (f : ascii -> ascii) (s : string) : string :=
  match s with
  | EmptyString => EmptyString
  | String c s' => String (f c) (mapBytes f s')
  end.

Section ToLower.

(** [strings.Map(unicode.ToLower, s)], the path [ToLower] takes for a
    string with a byte outside ASCII: it reads the Unicode tables, which
    stay a parameter. *)
Variable mapUnicodeLower : string -> string.

(** An ASCII string has its bytes 'A'..'Z' moved to 'a'..'z'. *)
Definition ToLower (s : string) : string :=
  if isASCII s then mapBytes lowerByte s else mapUnicodeLower s.

End ToLower.

Section TrimSpace.

(** The bytes [TrimSpace] takes for white space on its ASCII path: tab,
    line feed, vertical tab, form feed, carriage return and space. *)
Definition asciiSpace (c : ascii) : bool :=
  let n := nat_of_ascii c in
  ((9 <=? n) && (n <=? 13) || (n =? 32))%nat.

Fixpoint trimLeft (s : string) : string :=
  match s with
  | EmptyString => EmptyString
  | String c s' => if asciiSpace c then trimLeft s' else s
  end.

Fixpoint trimRight (s : string) : string :=
  match s with
  | EmptyString => EmptyString
  | String c s' =>
      match trimRight s' with
      | EmptyString => if asciiSpace c then EmptyString else String c ""
      | t => String c t
      end
  end.

(** [TrimFunc(s, unicode.IsSpace)] and [TrimRightFunc], the path
    [TrimSpace] takes once it meets a byte outside ASCII: it reads the
    Unicode tables, which stay a parameter. *)
Variable trimUnicodeSpace : string -> string.

Definition TrimSpace (s : string) : string :=
  if isASCII s then trimRight (trimLeft s) else trimUnicodeSpace s.

End TrimSpace.

(** A string of ASCII white space. *)
Definition allSpace (s : string) : bool :=
  forallb asciiSpace (list_ascii_of_string s).

Fixpoint HasPrefix (s prefix : string) : bool :=
  match prefix, s with
  | EmptyString, _ => true
  | String _ _, EmptyString => false
  | String p prefix', String c s' => Ascii.eqb c p && HasPrefix s' prefix'
  end.

(** [Contains(s, substr)]: [substr] starts at some byte offset of [s]. *)
Fixpoint Contains (s substr : string) : bool :=
  HasPrefix s substr
  || match s with
     | EmptyString => false
     | String _ s' => Contains s' substr
     end.

(** [sub] occurs in [s]: some bytes, then [sub], then some bytes. *)
Definition Substring (sub s : string) : Prop :=
  exists before after, s = before ++ sub ++ after.

Section Matching.

Variable mapUnicodeLower : string -> string.

(** [name], lowercased, contains the lowercased [q] as a substring. *)
Definition nameMatches (name q : string) : Prop :=
  Substring (ToLower mapUnicodeLower q) (ToLower mapUnicodeLower name).

End Matching.

End strings.

(** ** encoding/json *)

Module json.

(** A JSON value.  An object keeps its members in the order of the text,
    repeated keys included. *)
Inductive Value : Type :=
| JNull
| JBool (b : bool)
| JNumber (literal : string)
| JString (s : string)
| JArray (elems : list Value)
| JObject (members : list (string * Value)).

(** The bytes handed to [Unmarshal], read as the JSON text they hold.
    A [json.RawMessage] holds the bytes of one value of the text: the
    text of that value. *)
Inductive Data : Type :=
| Invalid
| Text (v : Value).

(** The name [UnmarshalTypeError] gives the kind of a value. *)
Definition kindName (v : Value) : string :=
  match v with
  | JNull => "null"
  | JBool _ => "bool"
  | JNumber _ => "number"
  | JString _ => "string"
  | JArray _ => "array"
  | JObject _ => "object"
  end.

(** A Go slice: nil, or a (possibly empty) sequence of elements. *)
Inductive slice (T : Type) : Type :=
| Nil
| Slice (elems : list T).
Arguments Nil {T}.
Arguments Slice {T} elems.

Section Slices.

Variable T : Type.
(** The decoder of one element into a fresh [T]. *)
Variable decodeElem : Value -> result T.

(** The elements of an array, in order; the error reported is the
    first one met. *)
Fixpoint decodeElems (elems : list Value) : result (list T) :=
  match elems with
  | [] => Ok []
  | v :: rest =>
      match decodeElem v with
      | Err e => Err e
      | Ok x =>
          match decodeElems rest with
          | Ok xs => Ok (x :: xs)
          | Err e => Err e
          end
      end
  end.

(** [json.Unmarshal(data, &v)] for a [v] declared [var v []T] (nil):
    the value [v] has afterwards, or the error. *)
Definition UnmarshalSlice (data : Data) : result (slice T) :=
  match data with
  | Invalid => Err SyntaxError
  | Text JNull => Ok Nil
  | Text (JArray elems) =>
      match decodeElems elems with
      | Ok xs => Ok (Slice xs)
      | Err e => Err e
      end
  | Text v => Err (UnmarshalTypeError (kindName v) "slice")
  end.

End Slices.

End json.

(** ** net/url: query strings *)

Module url.

Definition isAlnum (c : ascii) : bool :=
  let n := nat_of_ascii c in
  ((97 <=? n) && (n <=? 122) || (65 <=? n) && (n <=? 90)
   || (48 <=? n) && (n <=? 57))%nat.

(** [shouldEscape(c, encodeQueryComponent)]: letters, digits and the
    marks [-], [_], [.], [~] are kept, every other byte is escaped. *)
Definition shouldEscape (c : ascii) : bool :=
  negb (isAlnum c
        || Ascii.eqb c "-" || Ascii.eqb c "_" || Ascii.eqb c "."
        || Ascii.eqb c "~").

(** One digit of ["0123456789ABCDEF"]. *)
Definition upperhex (n : nat) : ascii :=
  if (n <? 10)%nat then ascii_of_nat (48 + n) else ascii_of_nat (55 + n).

(** One byte as [QueryEscape] writes it. *)
Definition escapeByte (c : ascii) : string :=
  if shouldEscape c then
    if Ascii.eqb c " " then "+"
    else
      String "%"
        (String (upperhex (nat_of_ascii c / 16))
           (String (upperhex (nat_of_ascii c mod 16)) ""))
  else String c "".

Fixpoint QueryEscape (s : string) : string :=
  match s with
  | EmptyString => ""
  | String c s' => escapeByte c ++ QueryEscape s'
  end.

(** [Values] holding one value under each key, as [Set] leaves them. *)
Definition Values : Type := list (string * string).

Fixpoint insertByKey (kv : string * string) (sorted : Values) : Values :=
  match sorted with
  | [] => [kv]
  | kv' :: rest =>
      if String.leb (fst kv) (fst kv') then kv :: sorted
      else kv' :: insertByKey kv rest
  end.

(** The bindings by ascending key, the order in which [Encode] walks
    them. *)
Fixpoint sortByKey (v : Values) : Values :=
  match v with
  | [] => []
  | kv :: rest => insertByKey kv (sortByKey rest)
  end.

(** The order of two bindings by their keys. *)
Definition keyLe (a b : string * string) : Prop :=
  String.leb (fst a) (fst b) = true.

(** [v.Encode()]: [key=value] pairs, escaped, joined by [&], by
    ascending key. *)
Definition Encode (v : Values) : string :=
  String.concat "&"
    (map (fun kv => QueryEscape (fst kv) ++ "=" ++ QueryEscape (snd kv))
       (sortByKey v)).

End url.

(** ** internal/api/client.go: the transport *)

Module api.

Definition maxRetries : nat := 3.

(** The response header: the values stored under each canonical key,
    in order. *)
Definition Header : Type := list (string * string).

(** [h.Get(key)]: the first value stored under [key], else [""]. *)
Fixpoint Header_Get (h : Header) (key : string) : string :=
  match h with
  | [] => ""
  | (k, v) :: h' => if String.eqb k key then v else Header_Get h' key
  end.

(** What [c.httpClient.Do(req)] followed by [io.ReadAll(resp.Body)]
    gives on one attempt. *)
Record Response : Type := {
  StatusCode : Z;
  RespHeader : Header;
  ReadAll : result string
}.

Inductive roundTrip : Type :=
| DoError (e : error)
| DoResponse (resp : Response).

(** What [ctx.Err()] is once the context is done. *)
Inductive ctxErr : Type := ctxCanceled | ctxDeadlineExceeded.

Definition ctxError (c : ctxErr) : error :=
  match c with
  | ctxCanceled => Canceled
  | ctxDeadlineExceeded => DeadlineExceeded
  end.

(** The world around one call of [requestCtx]. *)
Record Env : Type := {
  (* the error of json.Marshal(data), for a non-GET call with data *)
  marshalError : option error;
  (* the error of http.NewRequestWithContext *)
  newRequestError : option error;
  (* the outcome of the HTTP exchange of attempt n *)
  Do : nat -> roundTrip;
  (* Some (ctx.Err()) when <-ctx.Done() is the case the select takes
     while waiting before attempt n *)
  ctxDone : nat -> option ctxErr
}.

Inductive event : Type :=
| EvRateLimitWait (d : Z)   (* <-time.After(waitErr.after), line 105 *)
| EvBackoffWait (d : Z)     (* <-time.After(backoff), line 112 *)
| EvDo (attempt : nat).     (* c.httpClient.Do(req), line 136 *)

(** Lines 155-160: the wait of a 429 response. *)
Definition rateLimitWait (h : Header) : Z :=
  let ra := Header_Get h "Retry-After" in
  if String.eqb ra "" then 5 * time.Second
  else
    match strconv.Atoi ra with
    | Some secs => time.Seconds secs
    | None => 5 * time.Second
    end.

(** Line 169. *)
Definition apiErr (status : Z) (respBody : string) : error :=
  ErrorString ("API error (" ++ itoa status ++ "): " ++ respBody).

(** Lines 168-178: the classification of a response that is not
    retried. *)
Definition classify (status : Z) (respBody : string) : result string :=
  if 400 <=? status then
    if (status =? 401) || (status =? 403) then
      Err (clerrors.WrapAuthError "authentication failed"
             (apiErr status respBody))
    else Err (apiErr status respBody)
  else Ok respBody.

(** How one iteration of the loop ends. *)
Inductive control : Type :=
| Continue (lastErr : option error)
| Return (r : result string).

(** Lines 98-116: the wait before a retry.  [Some e] is the early
    return of [ctx.Err()]. *)
Definition waitBeforeRetry (env : Env) (attempt : nat)
    (lastErr : option error) : option error * list event :=
  if (0 <? attempt)%nat then
    match lastErr with
    | None => (None, [])
    | Some (RetryAfterError after) =>
        match ctxDone env attempt with
        | Some c => (Some (ctxError c), [])
        | None => (None, [EvRateLimitWait after])
        end
    | Some _ =>
        let backoff :=
          time.Seconds (wrap64 (Z.shiftl 1 (Z.of_nat (attempt - 1)))) in
        match ctxDone env attempt with
        | Some c => (Some (ctxError c), [])
        | None => (None, [EvBackoffWait backoff])
        end
    end
  else (None, []).

(** Lines 118-178: one attempt. *)
Definition attemptOnce (env : Env) (attempt : nat) : control * list event :=
  match newRequestError env with
  | Some e => (Return (Err (WrapError "failed to create request" e)), [])
  | None =>
      match Do env attempt with
      | DoError e =>
          (Return (Err (clerrors.WrapNetworkError "request failed" e)),
           [EvDo attempt])
      | DoResponse resp =>
          match ReadAll resp with
          | Err e =>
              (Return (Err (clerrors.WrapNetworkError
                              "failed to read response" e)),
               [EvDo attempt])
          | Ok respBody =>
              if (StatusCode resp =? 429) && (attempt <? maxRetries)%nat
              then
                (Continue
                   (Some (RetryAfterError (rateLimitWait (RespHeader resp)))),
                 [EvDo attempt])
              else (Return (classify (StatusCode resp) respBody),
                    [EvDo attempt])
          end
      end
  end.

(** Lines 98-178: the body of the loop. *)
Definition iteration (env : Env) (attempt : nat)
    (lastErr : option error) : control * list event :=
  match waitBeforeRetry env attempt lastErr with
  | (Some e, evs) => (Return (Err e), evs)
  | (None, evs) =>
      let (s, evs') := attemptOnce env attempt in (s, (evs ++ evs')%list)
  end.

(** Lines 97-181: [for attempt := 0; attempt <= maxRetries; attempt++],
    run over the attempt numbers still to come, and the return after
    the loop. *)
Fixpoint attemptLoop (env : Env) (attempts : list nat)
    (lastErr : option error) : result string * list event :=
  match attempts with
  | [] => (Err (Errorf_w "max retries exceeded" lastErr), [])
  | attempt :: rest =>
      match iteration env attempt lastErr with
      | (Return r, evs) => (r, evs)
      | (Continue lastErr', evs) =>
          let (r, evs') := attemptLoop env rest lastErr' in (r, (evs ++ evs')%list)
      end
  end.

(** [requestCtx]: the result and the trace of waits and attempts.
    Building the URL and the query string has no effect on either. *)
Definition requestCtx (env : Env) : result string * list event :=
  match marshalError env with
  | Some e => (Err (WrapError "failed to marshal request" e), [])
  | None => attemptLoop env (seq 0 (S maxRetries)) None
  end.

(** *** The states the loop passes through, and the traces it can leave *)

(** Attempt [i] is answered with status 429 and a body that reads. *)
Definition rateLimited (env : Env) (i : nat) : Prop :=
  exists resp respBody,
    Do env i = DoResponse resp /\ ReadAll resp = Ok respBody /\
    StatusCode resp = 429.

(** The wait the 429 branch computes from the response of attempt [i]. *)
Definition waitAfter (env : Env) (i : nat) : Z :=
  match Do env i with
  | DoResponse resp => rateLimitWait (RespHeader resp)
  | DoError _ => 0
  end.

(** The events of attempt [i] when every earlier attempt was retried:
    the wait the previous response asked for, then the exchange. *)
Definition attemptEvents (env : Env) (i : nat) : list event :=
  match i with
  | O => [EvDo 0]
  | S j => [EvRateLimitWait (waitAfter env j); EvDo i]
  end.

(** The events of attempts [0 .. n-1]. *)
Definition attemptsTrace (env : Env) (n : nat) : list event :=
  flat_map (attemptEvents env) (seq 0 n).

(** The pairs [(attempt, lastErr)] with which the loop body is entered. *)
Inductive reachable (env : Env) : nat -> option error -> Prop :=
| reach_first : reachable env 0 None
| reach_next attempt lastErr lastErr' evs :
    reachable env attempt lastErr ->
    (attempt <= maxRetries)%nat ->
    iteration env attempt lastErr = (Continue lastErr', evs) ->
    reachable env (S attempt) lastErr'.

(** What holds of [lastErr] when attempt [a] is entered: from the second
    attempt on it is the [retryAfterError] of the 429 answer before. *)
Definition entered (env : Env) (a : nat) (lastErr : option error) : Prop :=
  match a with
  | O => True
  | S j =>
      exists resp,
        Do env j = DoResponse resp /\ StatusCode resp = 429 /\
        lastErr = Some (RetryAfterError (rateLimitWait (RespHeader resp)))
  end.

(** A trace in which every wait is a rate-limit wait, stands directly
    after an attempt that was answered 429, and lasts what that answer
    asked for.  [prev] is the attempt the trace directly follows. *)
Inductive waitsFollow429 (env : Env) : option nat -> list event -> Prop :=
| wf_nil prev : waitsFollow429 env prev []
| wf_do prev i t :
    waitsFollow429 env (Some i) t -> waitsFollow429 env prev (EvDo i :: t)
| wf_wait i resp t :
    Do env i = DoResponse resp -> StatusCode resp = 429 ->
    waitsFollow429 env None t ->
    waitsFollow429 env (Some i)
      (EvRateLimitWait (rateLimitWait (RespHeader resp)) :: t).

(** The number of HTTP exchanges in a trace. *)
Definition attemptsMade (t : list event) : nat :=
  List.length (filter (fun ev => match ev with EvDo _ => true | _ => false end) t).

(** The waits of a trace, in order. *)
Fixpoint waits (t : list event) : list Z :=
  match t with
  | [] => []
  | EvRateLimitWait d :: t' => d :: waits t'
  | EvBackoffWait d :: t' => d :: waits t'
  | EvDo _ :: t' => waits t'
  end.

(** The result of line 181. *)
Definition isRetriesExceeded (r : result string) : bool :=
  match r with
  | Err (WrapError msg _) => String.eqb msg "max retries exceeded"
  | Err (WrapNil msg) => String.eqb msg "max retries exceeded"
  | _ => false
  end.

(** [lastErr] on entering attempt [a] when every earlier attempt was
    retried. *)
Definition lastErrAt (env : Env) (a : nat) : option error :=
  match a with
  | O => None
  | S j => Some (RetryAfterError (waitAfter env j))
  end.

(** A server that answers the attempts from a script, then keeps giving
    [rest]; nothing else fails and the context is never done. *)
Definition scripted (script : list roundTrip) (rest : roundTrip) : Env :=
  {| marshalError := None;
     newRequestError := None;
     Do := fun n => nth n script rest;
     ctxDone := fun _ => None |}.

Definition respond (status : Z) (h : Header) (respBody : string) : roundTrip :=
  DoResponse
    {| StatusCode := status; RespHeader := h; ReadAll := Ok respBody |}.

(** ** internal/api/client.go: decoding a list response *)

(** [paginatedResponse]; a nil [Results] and a nil [NextCursor] are
    [None]. *)
Record paginatedResponse : Type := {
  Results : option json.Value;
  NextCursor : option string
}.

Inductive pageField : Type := FResults | FNextCursor.

(** The JSON value of a cursor: a string, or null. *)
Definition cursorValue (cursor : option string) : json.Value :=
  match cursor with
  | Some c => json.JString c
  | None => json.JNull
  end.

Section Pagination.

(** The case folding under which [encoding/json] matches an object key
    with a field name when no field has exactly that name. *)
Variable foldName : string -> string.

Definition fieldOfKey (key : string) : option pageField :=
  if String.eqb key "results" then Some FResults
  else if String.eqb key "next_cursor" then Some FNextCursor
  else if String.eqb (foldName key) (foldName "results") then Some FResults
  else if String.eqb (foldName key) (foldName "next_cursor")
       then Some FNextCursor
  else None.

(** The members of an object stored into [page] one after the other; a
    member that does not fit its field leaves the field as it is, and
    the first such error is kept. *)
Fixpoint decodeMembers (members : list (string * json.Value))
    (page : paginatedResponse) (saved : option error)
    : paginatedResponse * option error :=
  match members with
  | [] => (page, saved)
  | (key, v) :: rest =>
      match fieldOfKey key with
      | Some FResults =>
          decodeMembers rest
            {| Results := Some v; NextCursor := NextCursor page |} saved
      | Some FNextCursor =>
          match v with
          | json.JNull =>
              decodeMembers rest
                {| Results := Results page; NextCursor := None |} saved
          | json.JString c =>
              decodeMembers rest
                {| Results := Results page; NextCursor := Some c |} saved
          | _ =>
              decodeMembers rest page
                (match saved with
                 | Some e => Some e
                 | None =>
                     Some (UnmarshalTypeError (json.kindName v) "string")
                 end)
          end
      | None => decodeMembers rest page saved
      end
  end.

(** [json.Unmarshal(data, &page)] for [var page paginatedResponse]: the
    error, and [page] afterwards. *)
Definition UnmarshalPage (data : json.Data)
    : option error * paginatedResponse :=
  let zero := {| Results := None; NextCursor := None |} in
  match data with
  | json.Invalid => (Some SyntaxError, zero)
  | json.Text json.JNull => (None, zero)
  | json.Text (json.JObject members) =>
      let (page, saved) := decodeMembers members zero None in (saved, page)
  | json.Text v =>
      (Some (UnmarshalTypeError (json.kindName v) "paginatedResponse"), zero)
  end.

Variable T : Type.
Variable decodeElem : json.Value -> result T.

(** [unmarshalList], lines 32-38. *)
Definition unmarshalList (data : json.Data) : result (json.slice T) :=
  match UnmarshalPage data with
  | (None, {| Results := Some raw |}) =>
      json.UnmarshalSlice T decodeElem (json.Text raw)
  | _ => json.UnmarshalSlice T decodeElem data
  end.

End Pagination.

(** ** internal/api/client.go: projects, sections and lookup by name *)

Record Project : Type := {
  Project_ID : string;
  Project_Name : string;
  Project_Color : string;
  Project_ParentID : string;
  Project_Order : Z;
  Project_CommentCount : Z;
  Project_IsShared : bool;
  Project_IsFavorite : bool;
  Project_IsInboxProject : bool;
  Project_IsTeamInbox : bool;
  Project_ViewStyle : string;
  Project_URL : string
}.

(** A project that has only an ID and a name, as the tests build them. *)
Definition namedProject (id name : string) : Project :=
  {| Project_ID := id; Project_Name := name;
     Project_Color := ""; Project_ParentID := "";
     Project_Order := 0; Project_CommentCount := 0;
     Project_IsShared := false; Project_IsFavorite := false;
     Project_IsInboxProject := false; Project_IsTeamInbox := false;
     Project_ViewStyle := ""; Project_URL := "" |}.

Record Section_ : Type := {
  Section_ID : string;
  Section_ProjectID : string;
  Section_Order : Z;
  Section_Name : string
}.

Section FindByName.

Variable mapUnicodeLower : string -> string.

(** Lines 423-427: the scan of the listing. *)
Fixpoint scanProjects (projects : list Project) (nameLower : string)
    : option Project :=
  match projects with
  | [] => None
  | p :: rest =>
      if strings.Contains
           (strings.ToLower mapUnicodeLower (Project_Name p)) nameLower
      then Some p
      else scanProjects rest nameLower
  end.

(** [FindProject], lines 416-430, given what [c.GetProjects()]
    returned. *)
Definition FindProject (getProjects : result (list Project))
    (name : string) : result Project :=
  match getProjects with
  | Err err => Err err
  | Ok projects =>
      let nameLower := strings.ToLower mapUnicodeLower name in
      match scanProjects projects nameLower with
      | Some p => Ok p
      | None => Err (ErrorString ("project not found: " ++ name))
      end
  end.

End FindByName.

(** ** internal/api/client.go: the params of add and update requests *)

(** [AddTaskParams]; a nil [Labels] is the empty list. *)
Record AddTaskParams : Type := {
  Add_Content : string;
  Add_Description : string;
  Add_DueString : string;
  Add_DueDate : string;
  Add_Priority : Z;
  Add_ProjectID : string;
  Add_SectionID : string;
  Add_ParentID : string;
  Add_Labels : list string;
  Add_AssigneeID : string
}.

(** [UpdateTaskParams]. *)
Record UpdateTaskParams : Type := {
  Upd_Content : string;
  Upd_Description : string;
  Upd_DueString : string;
  Upd_DueDate : string;
  Upd_Priority : Z;
  Upd_Labels : list string;
  Upd_AssigneeID : string
}.

(** A string field of a struct as [json.Marshal] writes it. *)
Definition strField (omitempty : bool) (key value : string)
    : list (string * json.Value) :=
  if omitempty && String.eqb value "" then []
  else [(key, json.JString value)].

(** The [priority,omitempty] field: left out when it is 0. *)
Definition priorityField (priority : Z) : list (string * json.Value) :=
  if priority =? 0 then [] else [("priority", json.JNumber (itoa priority))].

(** The [labels,omitempty] field: left out when there is no label. *)
Definition labelsField (labels : list string) : list (string * json.Value) :=
  match labels with
  | [] => []
  | _ => [("labels", json.JArray (map json.JString labels))]
  end.

(** [json.Marshal(params)] for [AddTaskParams], by its field tags. *)
Definition marshalAddTaskParams (p : AddTaskParams) : json.Value :=
  json.JObject
    (strField false "content" (Add_Content p)
     ++ strField true "description" (Add_Description p)
     ++ strField true "due_string" (Add_DueString p)
     ++ strField true "due_date" (Add_DueDate p)
     ++ priorityField (Add_Priority p)
     ++ strField true "project_id" (Add_ProjectID p)
     ++ strField true "section_id" (Add_SectionID p)
     ++ strField true "parent_id" (Add_ParentID p)
     ++ labelsField (Add_Labels p)
     ++ strField true "assignee_id" (Add_AssigneeID p))%list.

(** [json.Marshal(params)] for [UpdateTaskParams]. *)
Definition marshalUpdateTaskParams (p : UpdateTaskParams) : json.Value :=
  json.JObject
    (strField true "content" (Upd_Content p)
     ++ strField true "description" (Upd_Description p)
     ++ strField true "due_string" (Upd_DueString p)
     ++ strField true "due_date" (Upd_DueDate p)
     ++ priorityField (Upd_Priority p)
     ++ labelsField (Upd_Labels p)
     ++ strField true "assignee_id" (Upd_AssigneeID p))%list.

(** The value an object holds under [key], if any. *)
Definition member (key : string) (v : json.Value) : option json.Value :=
  match v with
  | json.JObject members =>
      match find (fun kv => String.eqb (fst kv) key) members with
      | Some kv => Some (snd kv)
      | None => None
      end
  | _ => None
  end.

(** ** internal/api/client.go: tasks and comments *)

Record Due : Type := {
  Due_Date : string;
  Due_String : string;
  Due_Datetime : string;
  Due_IsRecurring : bool;
  Due_Timezone : string
}.

Record Task : Type := {
  Task_ID : string;
  Task_Content : string;
  Task_Description : string;
  Task_ProjectID : string;
  Task_SectionID : string;
  Task_ParentID : string;
  Task_Order : Z;
  Task_Priority : Z;
  Task_Due : option Due;
  Task_URL : string;
  Task_Labels : list string;
  Task_CreatedAt : string;
  Task_CreatorID : string;
  Task_Assignee : string;
  Task_Assigner : string;
  Task_IsCompleted : bool
}.

Record Comment : Type := {
  Comment_ID : string;
  Comment_TaskID : string;
  Comment_ProjectID : string;
  Comment_Content : string;
  Comment_PostedAt : string
}.

(** *** GetCommentsCtx and its context *)

(** The world of a [GET]: nothing is marshalled (lines 72-94). *)
Definition forGET (env : Env) : Env :=
  {| marshalError := None;
     newRequestError := newRequestError env;
     Do := Do env;
     ctxDone := ctxDone env |}.

(** The exchange of attempt [n] ends in an error of [Do]. *)
Definition exchangeFails (env : Env) (attempt : nat) : bool :=
  match Do env attempt with
  | DoError _ => true
  | DoResponse _ => false
  end.

(** A world in which every exchange fails. *)
Definition noNetwork : Env :=
  {| marshalError := None;
     newRequestError := None;
     Do := fun _ => DoError Canceled;
     ctxDone := fun _ => None |}.

Section Comments.

Variable foldName : string -> string.
(** The JSON text that the bytes of a response body hold. *)
Variable parseJSON : string -> json.Data.
(** The decoder of one element into a [Comment]. *)
Variable decodeComment : json.Value -> result Comment.

(** [GetCommentsCtx(ctx, taskID, projectID)], lines 579-598, in the
    world [env] that its request meets.  The context is part of that
    world: it is the [ctx] of the waits (lines 102-114) and of the
    request (line 123).  A nil slice and an empty one are both the
    empty list. *)
Definition GetCommentsCtx (env : Env) : result (list Comment) :=
  match fst (requestCtx (forGET env)) with
  | Err err => Err err
  | Ok resp =>
      match unmarshalList foldName Comment decodeComment (parseJSON resp) with
      | Err err => Err (WrapError "failed to parse comments" err)
      | Ok json.Nil => Ok []
      | Ok (json.Slice comments) => Ok comments
      end
  end.

End Comments.

(** A task that has only an ID, a content and possibly a due date. *)
Definition taskOf (id content : string) (due : option Due) : Task :=
  {| Task_ID := id; Task_Content := content; Task_Description := "";
     Task_ProjectID := ""; Task_SectionID := ""; Task_ParentID := "";
     Task_Order := 0; Task_Priority := 0; Task_Due := due; Task_URL := "";
     Task_Labels := []; Task_CreatedAt := ""; Task_CreatorID := "";
     Task_Assignee := ""; Task_Assigner := ""; Task_IsCompleted := false |}.

(** A task that has only an ID, a parent and a content. *)
Definition subtaskOf (id parentID content : string) : Task :=
  {| Task_ID := id; Task_Content := content; Task_Description := "";
     Task_ProjectID := ""; Task_SectionID := ""; Task_ParentID := parentID;
     Task_Order := 0; Task_Priority := 0; Task_Due := None; Task_URL := "";
     Task_Labels := []; Task_CreatedAt := ""; Task_CreatorID := "";
     Task_Assignee := ""; Task_Assigner := ""; Task_IsCompleted := false |}.

(** A due date that is a day. *)
Definition dueOn (date : string) : Due :=
  {| Due_Date := date; Due_String := ""; Due_Datetime := "";
     Due_IsRecurring := false; Due_Timezone := "" |}.

(** A task that has only an ID. *)
Definition taskWithID (id : string) : Task :=
  {| Task_ID := id; Task_Content := ""; Task_Description := "";
     Task_ProjectID := ""; Task_SectionID := ""; Task_ParentID := "";
     Task_Order := 0; Task_Priority := 0; Task_Due := None; Task_URL := "";
     Task_Labels := []; Task_CreatedAt := ""; Task_CreatorID := "";
     Task_Assignee := ""; Task_Assigner := ""; Task_IsCompleted := false |}.

(** ** internal/api/client.go: the URL of a request *)

Definition BaseURL : string := "https://api.todoist.com/api/v1".

(** Lines 76-81: the parameters that go into the query.  [params] are
    the bindings of the map in the order the [range] meets them. *)
Definition queryValues (params : list (string * string)) : url.Values :=
  filter (fun kv => negb (String.eqb (snd kv) "")) params.

(** Lines 69-94: [reqURL].  [params] is the map when [data] is a
    [map[string]string], and [None] for any other [data], nil
    included. *)
Definition requestURL (method endpoint : string)
    (params : option (list (string * string))) : string :=
  let reqURL := BaseURL ++ "/" ++ endpoint in
  match params with
  | Some m =>
      if String.eqb method "GET" then
        let values := queryValues m in
        if (0 <? List.length values)%nat then
          reqURL ++ "?" ++ url.Encode values
        else reqURL
      else reqURL
  | None => reqURL
  end.

(** The occurrences of a byte in a string. *)
Fixpoint countByte (c : ascii) (s : string) : nat :=
  match s with
  | EmptyString => 0%nat
  | String c' s' => ((if Ascii.eqb c' c then 1 else 0) + countByte c s')%nat
  end.

(** [GetTasks], lines 227-238: the map handed to [request] ([None] is
    nil data). *)
Definition GetTasks_params (projectID filter : string)
    : option (list (string * string)) :=
  let params :=
    ((if String.eqb projectID "" then [] else [("project_id", projectID)])
     ++ (if String.eqb filter "" then [] else [("filter", filter)]))%list in
  if (0 <? List.length params)%nat then Some params else None.

(** [MoveTask], lines 671-676: the [args] of the [item_move] command. *)
Definition MoveTask_args (taskID sectionID projectID : string)
    : list (string * string) :=
  ("id", taskID)
  :: (if negb (String.eqb sectionID "") then [("section_id", sectionID)]
      else if negb (String.eqb projectID "") then [("project_id", projectID)]
      else []).

(** [CompletedTask], lines 653-659. *)
Record CompletedTask : Type := {
  Completed_ID : string;
  Completed_TaskID : string;
  Completed_Content : string;
  Completed_ProjectID : string;
  Completed_CompletedAt : string
}.

End api.

(** ** internal/config *)

Module config.

Record Config : Type := { APIToken : string }.

(** What [os.ReadFile(ConfigPath())] finds: no file, a file that cannot
    be read, or the bytes of the file. *)
Inductive fileState : Type :=
| NotExist
| Unreadable (err : error)
| Content (data : json.Data).

(** What [Load] reads: the environment variable (empty when unset) and
    the config file. *)
Record World : Type := {
  TODOIST_API_TOKEN : string;
  configFile : fileState
}.

Section Decoding.

Variable foldName : string -> string.

(** Whether an object key is the one of the field [APIToken]. *)
Definition isAPITokenKey (key : string) : bool :=
  String.eqb key "api_token"
  || String.eqb (foldName key) (foldName "api_token").

Fixpoint decodeMembers (members : list (string * json.Value))
    (cfg : Config) (saved : option error) : Config * option error :=
  match members with
  | [] => (cfg, saved)
  | (key, v) :: rest =>
      if isAPITokenKey key then
        match v with
        | json.JNull => decodeMembers rest cfg saved
        | json.JString token =>
            decodeMembers rest {| APIToken := token |} saved
        | _ =>
            decodeMembers rest cfg
              (match saved with
               | Some e => Some e
               | None => Some (UnmarshalTypeError (json.kindName v) "string")
               end)
        end
      else decodeMembers rest cfg saved
  end.

(** [json.Unmarshal(data, &cfg)] for [var cfg Config]. *)
Definition Unmarshal (data : json.Data) : option error * Config :=
  let zero := {| APIToken := "" |} in
  match data with
  | json.Invalid => (Some SyntaxError, zero)
  | json.Text json.JNull => (None, zero)
  | json.Text (json.JObject members) =>
      let (cfg, saved) := decodeMembers members zero None in (saved, cfg)
  | json.Text v => (Some (UnmarshalTypeError (json.kindName v) "Config"), zero)
  end.

(** [Load]. *)
Definition Load (w : World) : result Config :=
  let token := TODOIST_API_TOKEN w in
  if negb (String.eqb token "") then Ok {| APIToken := token |}
  else
    match configFile w with
    | NotExist =>
        Err (ErrorString
               "not configured. Run 'todoist auth' or set TODOIST_API_TOKEN")
    | Unreadable err => Err (WrapError "failed to read config" err)
    | Content data =>
        match Unmarshal data with
        | (Some err, _) => Err (WrapError "failed to parse config" err)
        | (None, cfg) =>
            if String.eqb (APIToken cfg) ""
            then Err (ErrorString
                        "no API token configured. Run 'todoist auth'")
            else Ok cfg
        end
    end.

(** [GetToken]. *)
Definition GetToken (w : World) : result string :=
  match Load w with
  | Err err => Err err
  | Ok cfg => Ok (APIToken cfg)
  end.

(** What [encoding/json] writes for a string and reads back: the string
    with every byte sequence that is not UTF-8 replaced. *)
Variable toValidUTF8 : string -> string.

(** The JSON text [json.MarshalIndent(cfg, "", "  ")] writes. *)
Definition MarshalIndent (cfg : Config) : json.Data :=
  json.Text (json.JObject [("api_token", json.JString (toValidUTF8 (APIToken cfg)))]).

(** [Save], given the errors of [os.MkdirAll] and [os.WriteFile]: the
    error, or the world after the file has been written. *)
Definition Save (w : World) (mkdirAllError writeFileError : option error)
    (cfg : Config) : result World :=
  match mkdirAllError with
  | Some err => Err (WrapError "failed to create config dir" err)
  | None =>
      match writeFileError with
      | Some err => Err (WrapError "failed to write config" err)
      | None =>
          Ok {| TODOIST_API_TOKEN := TODOIST_API_TOKEN w;
                configFile := Content (MarshalIndent cfg) |}
      end
  end.

End Decoding.

End config.

(** ** cmd/todoist *)

Module cmd.

Section Commands.

Variable mapUnicodeLower : string -> string.

(** [containsCI]. *)
Definition containsCI (s substr : string) : bool :=
  strings.Contains (strings.ToLower mapUnicodeLower s)
    (strings.ToLower mapUnicodeLower substr).

(** The loop of [findSectionID], sections.go lines 296-300. *)
Fixpoint scanSections (sections : list api.Section_) (nameLower : string)
    : string :=
  match sections with
  | [] => ""
  | s :: rest =>
      if strings.Contains
           (strings.ToLower mapUnicodeLower (api.Section_Name s)) nameLower
      then api.Section_ID s
      else scanSections rest nameLower
  end.

(** [findSectionID], sections.go lines 294-302. *)
Definition findSectionID (sections : list api.Section_) (name : string)
    : string :=
  scanSections sections (strings.ToLower mapUnicodeLower name).

(** The move command resolving [--section], sections.go lines 260-263. *)
Definition moveSectionID (sections : list api.Section_) (section : string)
    : result string :=
  let sectionID := findSectionID sections section in
  if String.eqb sectionID "" then
    Err (ErrorString ("section not found: " ++ section))
  else Ok sectionID.

End Commands.

(** add.go lines 43-53: the params of the add command once the
    priority flag has been looked at (project and section are filled in
    afterwards). *)
Definition addParams (content description due : string)
    (labels : list string) (priority : Z) : api.AddTaskParams :=
  {| api.Add_Content := content;
     api.Add_Description := description;
     api.Add_DueString := due;
     api.Add_DueDate := "";
     api.Add_Priority := if 0 <? priority then wrap64 (5 - priority) else 0;
     api.Add_ProjectID := "";
     api.Add_SectionID := "";
     api.Add_ParentID := "";
     api.Add_Labels := labels;
     api.Add_AssigneeID := "" |}.

(** update.go lines 40-55. *)
Definition updateParams (content description due : string)
    (labels : list string) (priority : Z) : api.UpdateTaskParams :=
  {| api.Upd_Content := content;
     api.Upd_Description := description;
     api.Upd_DueString := due;
     api.Upd_DueDate := "";
     api.Upd_Priority := if 0 <? priority then wrap64 (5 - priority) else 0;
     api.Upd_Labels := if (0 <? List.length labels)%nat then labels else [];
     api.Upd_AssigneeID := "" |}.

(** *** The search command and the section of the add command *)

Section Lookups.

Variable mapUnicodeLower : string -> string.

(** search.go line 39: the test of one task against the lowercased
    query. *)
Definition searchMatches (query : string) (t : api.Task) : bool :=
  strings.Contains (strings.ToLower mapUnicodeLower (api.Task_Content t))
    query
  || strings.Contains
       (strings.ToLower mapUnicodeLower (api.Task_Description t)) query.

(** search.go lines 37-43: the loop that appends the matching tasks. *)
Fixpoint searchLoop (query : string) (tasks matches : list api.Task)
    : list api.Task :=
  match tasks with
  | [] => matches
  | t :: rest =>
      if searchMatches query t then searchLoop query rest (matches ++ [t])
      else searchLoop query rest matches
  end.

(** search.go lines 25-43: the tasks handed to [WriteTasks], given the
    argument of the command and the tasks [GetTasks] returned. *)
Definition searchTasks (arg : string) (tasks : list api.Task)
    : list api.Task :=
  searchLoop (strings.ToLower mapUnicodeLower arg) tasks [].

(** add.go lines 70-75: the loop over the sections, with its [break]. *)
Fixpoint addSectionLoop (sections : list api.Section_) (section : string)
    (sectionID : string) : string :=
  match sections with
  | [] => sectionID
  | s :: rest =>
      if containsCI mapUnicodeLower (api.Section_Name s) section
      then api.Section_ID s
      else addSectionLoop rest section sectionID
  end.

(** add.go lines 65-77: [params.SectionID] after the block, or the error
    returned; [getSections] is what [client.GetSections] returns when
    it is called. *)
Definition addSectionID (section projectID : string)
    (getSections : result (list api.Section_)) : result string :=
  if negb (String.eqb section "") && negb (String.eqb projectID "") then
    match getSections with
    | Err err => Err err
    | Ok sections => Ok (addSectionLoop sections section "")
    end
  else Ok "".

End Lookups.

(** *** The order of the tasks command *)

Section Sorting.

Variable mapUnicodeLower : string -> string.

(** The field [ChildOrder] that [sortTasksBy] reads is not in the
    declaration of [Task] in client.go (which has [Order]); what it
    holds for a task stays a parameter. *)
Variable ChildOrder : api.Task -> Z.

(** The ["due"] case of [sortTasksBy] on the due dates and positions of
    its two tasks. *)
Definition dueLess (d1 : string) (c1 : Z) (d2 : string) (c2 : Z) : bool :=
  if String.eqb d1 d2 then c1 <? c2
  else if String.eqb d1 "" then false
  else if String.eqb d2 "" then true
  else String.ltb d1 d2.

(** [taskDueDate]. *)
Definition taskDueDate (t : api.Task) : string :=
  match api.Task_Due t with
  | None => ""
  | Some due =>
      if negb (String.eqb (api.Due_Datetime due) "") then api.Due_Datetime due
      else api.Due_Date due
  end.

(** The [less] function [sortTasksBy] hands to [sort.Slice], on the
    tasks at its two indices. *)
Definition sortLess (field : string) (ti tj : api.Task) : bool :=
  if String.eqb field "priority" then
    api.Task_Priority tj <? api.Task_Priority ti
  else if String.eqb field "due" then
    let di := taskDueDate ti in
    let dj := taskDueDate tj in
    if String.eqb di dj then ChildOrder ti <? ChildOrder tj
    else if String.eqb di "" then false
    else if String.eqb dj "" then true
    else String.ltb di dj
  else if String.eqb field "name" then
    String.ltb (strings.ToLower mapUnicodeLower (api.Task_Content ti))
      (strings.ToLower mapUnicodeLower (api.Task_Content tj))
  else if String.eqb field "created" then
    String.ltb (api.Task_CreatedAt ti) (api.Task_CreatedAt tj)
  else ChildOrder ti <? ChildOrder tj.

End Sorting.

(** *** The move command *)

Section Move.

Variable mapUnicodeLower : string -> string.

(** sections.go lines 237-274: the [args] with which the move command
    has [MoveTask] build its command, or the error it returns before.
    [getTask] and [getProjects] are what [GetTask] and [GetProjects]
    return, [getSections] what [GetSections] returns for a project. *)
Definition moveArgs (taskID section project : string)
    (getTask : result api.Task)
    (getSections : string -> result (list api.Section_))
    (getProjects : result (list api.Project))
    : result (list (string * string)) :=
  if String.eqb section "" && String.eqb project "" then
    Err (ErrorString "must specify either --section or --project")
  else
    let sectionID :=
      if String.eqb section "" then Ok ""
      else
        match getTask with
        | Err err => Err (WrapError "failed to get task" err)
        | Ok task =>
            match getSections (api.Task_ProjectID task) with
            | Err err => Err (WrapError "failed to get sections" err)
            | Ok sections => moveSectionID mapUnicodeLower sections section
            end
        end in
    match sectionID with
    | Err err => Err err
    | Ok sectionID =>
        let projectID :=
          if String.eqb project "" then Ok ""
          else
            match api.FindProject mapUnicodeLower getProjects project with
            | Err err => Err err
            | Ok p => Ok (api.Project_ID p)
            end in
        match projectID with
        | Err err => Err err
        | Ok projectID => Ok (api.MoveTask_args taskID sectionID projectID)
        end
    end.

End Move.

(** *** The auth command *)

Section Auth.

Variable trimUnicodeSpace : string -> string.
Variable toValidUTF8 : string -> string.

(** The token the auth command takes: its argument as it is, or the
    line read from the standard input, trimmed. *)
Definition authToken (args : list string) (readString : result string)
    : result string :=
  match args with
  | token :: _ => Ok token
  | [] =>
      match readString with
      | Err err => Err (WrapError "failed to read token" err)
      | Ok input => Ok (strings.TrimSpace trimUnicodeSpace input)
      end
  end.

(** The auth command: the error, or the world once the token is saved.
    [getProjects] is the error of the [GetProjects] of a client made
    with a token. *)
Definition runAuth (args : list string) (readString : result string)
    (getProjects : string -> option error) (w : config.World)
    (mkdirAllError writeFileError : option error) : result config.World :=
  match authToken args readString with
  | Err err => Err err
  | Ok token =>
      if String.eqb token "" then Err (ErrorString "token cannot be empty")
      else
        match getProjects token with
        | Some err => Err (WrapError "invalid token" err)
        | None =>
            config.Save toValidUTF8 w mkdirAllError writeFileError
              {| config.APIToken := token |}
        end
  end.

End Auth.

(** *** The delete command *)

Section Delete.

Variable mapUnicodeLower : string -> string.
Variable trimUnicodeSpace : string -> string.

(** What the delete command does after it has its client: the question
    it prints, the call of [DeleteTask], the messages it writes. *)
Inductive deleteEvent : Type :=
| EvAsk (question : string)
| EvDeleteTask (taskID : string)
| EvWriteSuccess (msg : string).

(** delete.go line 48: the answer is a yes. *)
Definition confirmed (input : string) : bool :=
  String.eqb
    (strings.ToLower mapUnicodeLower
       (strings.TrimSpace trimUnicodeSpace input)) "y".

(** delete.go lines 37-58.  [getTask] and [deleteTask] are what
    [GetTask] and [DeleteTask] return, [input] what is read from the
    standard input up to the end of the line or of the input. *)
Definition runDelete (force asJSON : bool) (taskID : string)
    (getTask : result api.Task) (input : string)
    (deleteTask : option error) : list deleteEvent * option error :=
  match getTask with
  | Err err => ([], Some err)
  | Ok task =>
      let question :=
        "Delete task: " ++ api.Task_Content task ++ String (ascii_of_nat 10) ""
        ++ "This cannot be undone. Continue? [y/N] " in
      let asked :=
        if negb force && negb asJSON then [EvAsk question] else [] in
      if negb force && negb asJSON && negb (confirmed input) then
        (asked ++ [EvWriteSuccess "Cancelled"], None)%list
      else
        match deleteTask with
        | Some err => (asked ++ [EvDeleteTask taskID], Some err)%list
        | None =>
            (asked ++ [EvDeleteTask taskID;
                       EvWriteSuccess ("Deleted: " ++ api.Task_Content task)],
             None)%list
        end
  end.

(** The calls of [DeleteTask] among the events. *)
Definition deletions (events : list deleteEvent) : list string :=
  flat_map (fun e => match e with EvDeleteTask id => [id] | _ => [] end)
    events.

End Delete.

(** *** The tasks command with [--details]: one comment fetch per task

    [runTasks] starts one goroutine per task through an errgroup with
    limit 5 and a shared context.  A goroutine fetches the comments of
    its task with [GetCommentsCtx] and, under the mutex, stores them in
    [commentsMap]; when the fetch fails it returns the error.  The
    errgroup ([golang.org/x/sync/errgroup]) keeps the first error a
    goroutine returns and cancels the shared context when it gets it;
    [g.Go] blocks while as many goroutines as the limit are running, and
    [g.Wait] returns the kept error once every goroutine is done.

    The interleaving of the goroutines is a schedule: the order in which
    goroutines are started and in which they finish, each with the
    world its fetch met.  A fetch in flight when the context is
    cancelled may already have its answer, so what it returns is left
    open; a fetch started afterwards is given a context that is done. *)

Section Enrichment.

Variable foldName : string -> string.
Variable parseJSON : string -> json.Data.
Variable decodeComment : json.Value -> result api.Comment.

Definition limit : nat := 5.

Record fanout : Type := {
  (* the tasks the for loop has still to hand to g.Go *)
  pending : list api.Task;
  (* the tasks whose goroutine is started and not yet done, each with
     whether the shared ctx was already cancelled when g.Go started it *)
  running : list (api.Task * bool);
  (* commentsMap, latest entry first *)
  commentsMap : list (string * list api.Comment);
  (* g.err: the first error a goroutine returned *)
  groupErr : option error;
  (* whether the shared ctx is cancelled *)
  ctxCancelled : bool
}.

Inductive action : Type :=
| Go
    (* the loop hands its next task to g.Go *)
| Done (id : string) (env : api.Env).
    (* the goroutine of the task with this ID ends; env is the world
       its call client.GetCommentsCtx(ctx, t.ID, "") met *)

(** The first goroutine in flight for the task [id], and the others. *)
Fixpoint takeRunning (id : string) (gs : list (api.Task * bool))
    : option ((api.Task * bool) * list (api.Task * bool)) :=
  match gs with
  | [] => None
  | g :: rest =>
      if String.eqb (api.Task_ID (fst g)) id then Some (g, rest)
      else
        match takeRunning id rest with
        | Some (found, others) => Some (found, g :: others)
        | None => None
        end
  end.

(** What [client.GetCommentsCtx(ctx, t.ID, "")] returns to a goroutine
    in the world [env].  The request of every attempt is built with
    [ctx] (client.go line 123), and [net/http] fails the exchange of a
    request whose context is done: when [ctx] was cancelled before the
    goroutine was started, a world in which the first exchange does not
    fail is none the call can meet ([None]). *)
Definition fetch (ctxDone : bool) (env : api.Env)
    : option (result (list api.Comment)) :=
  if ctxDone && negb (api.exchangeFails env 0) then None
  else Some (api.GetCommentsCtx foldName parseJSON decodeComment env).

Definition step (st : fanout) (a : action) : option fanout :=
  match a with
  | Go =>
      match pending st with
      | [] => None
      | t :: rest =>
          if (List.length (running st) <? limit)%nat then
            Some {| pending := rest;
                    running := (running st ++ [(t, ctxCancelled st)])%list;
                    commentsMap := commentsMap st;
                    groupErr := groupErr st;
                    ctxCancelled := ctxCancelled st |}
          else None
      end
  | Done id env =>
      match takeRunning id (running st) with
      | None => None
      | Some ((t, ctxDone), others) =>
          match fetch ctxDone env with
          | None => None
          | Some (Ok comments) =>
              Some {| pending := pending st;
                      running := others;
                      commentsMap :=
                        (api.Task_ID t, comments) :: commentsMap st;
                      groupErr := groupErr st;
                      ctxCancelled := ctxCancelled st |}
          | Some (Err err) =>
              Some {| pending := pending st;
                      running := others;
                      commentsMap := commentsMap st;
                      groupErr :=
                        match groupErr st with
                        | Some first => Some first
                        | None => Some err
                        end;
                      ctxCancelled := true |}
          end
      end
  end.

(** The state after a schedule; [None] when the schedule asks for a
    step that cannot be taken. *)
Fixpoint exec (st : fanout) (schedule : list action) : option fanout :=
  match schedule with
  | [] => Some st
  | a :: rest =>
      match step st a with
      | Some st' => exec st' rest
      | None => None
      end
  end.

(** Lines 116-120: the empty map and the fresh group. *)
Definition start (tasks : list api.Task) : fanout :=
  {| pending := tasks; running := []; commentsMap := [];
     groupErr := None; ctxCancelled := false |}.

(** [g.Wait()] returns: every task was handed over and every goroutine
    is done. *)
Definition joined (st : fanout) : bool :=
  match pending st, running st with
  | [], [] => true
  | _, _ => false
  end.

(** [commentsMap[id]]. *)
Definition lookupComments (id : string)
    (m : list (string * list api.Comment)) : option (list api.Comment) :=
  match find (fun kv => String.eqb (fst kv) id) m with
  | Some kv => Some (snd kv)
  | None => None
  end.

(** A task is accounted for when it is still to be started, when its
    fetch is in flight, or when the mapping has its comments. *)
Definition accounted (st : fanout) (t : api.Task) : Prop :=
  In t (pending st) \/ In t (map fst (running st)) \/
  lookupComments (api.Task_ID t) (commentsMap st) <> None.

(** The error of the first goroutine of the schedule whose fetch
    fails. *)
Fixpoint firstFailure (schedule : list action) : option error :=
  match schedule with
  | [] => None
  | Go :: rest => firstFailure rest
  | Done _ env :: rest =>
      match api.GetCommentsCtx foldName parseJSON decodeComment env with
      | Err err => Some err
      | Ok _ => firstFailure rest
      end
  end.

(** The schedule that ends the goroutines in flight, their exchanges
    failing, and the one that then starts and ends the goroutine of
    each task still to come. *)
Definition drain (gs : list (api.Task * bool)) : list action :=
  map (fun g => Done (api.Task_ID (fst g)) api.noNetwork) gs.

Definition serve (tasks : list api.Task) : list action :=
  flat_map (fun t => [Go; Done (api.Task_ID t) api.noNetwork]) tasks.

Section Details.

(** [out.FormatTaskLine(&t)] and [out.Color().Wrap(code, s)] belong to
    the output package. *)
Variable FormatTaskLine : api.Task -> string.
Variable Wrap : string -> string -> string.

Definition newline : string := String (ascii_of_nat 10) "".

(** Lines 148-153: one comment. *)
Definition commentLine (c : api.Comment) : string :=
  let date := api.Comment_PostedAt c in
  let date :=
    if (10 <=? String.length date)%nat then String.substring 0 10 date
    else date in
  "      [" ++ date ++ "] " ++ api.Comment_Content c ++ newline.

(** Lines 142-144: the description, in grey. *)
Definition descriptionLines (t : api.Task) : list string :=
  if String.eqb (api.Task_Description t) "" then []
  else ["    " ++ Wrap (String (ascii_of_nat 27) "[90m") (api.Task_Description t)
        ++ newline].

(** Lines 146-155: the comments stored for the task, if there are any. *)
Definition commentLines (m : list (string * list api.Comment))
    (t : api.Task) : list string :=
  match lookupComments (api.Task_ID t) m with
  | Some (c :: cs) =>
      ("    Comments (" ++ itoa (Z.of_nat (List.length (c :: cs))) ++ "):"
       ++ newline)
      :: map commentLine (c :: cs)
  | _ => []
  end.

(** Lines 140-158: what is written for the tasks, a blank line between
    two of them. *)
Fixpoint writeTasks (m : list (string * list api.Comment))
    (tasks : list api.Task) : list string :=
  match tasks with
  | [] => []
  | t :: rest =>
      (((FormatTaskLine t ++ newline)%string :: descriptionLines t)
       ++ commentLines m t
       ++ match rest with
          | [] => []
          | _ => [newline]
          end
       ++ writeTasks m rest)%list
  end.

(** [runTasks] from line 106 on, the branch taken with [--details] and
    without [--json], given the tasks [GetTasks] returned and a
    schedule: the error returned and what was written to standard
    output; [None] when the schedule is not a complete run of the
    goroutines. *)
Definition runTasks (tasks : list api.Task) (schedule : list action)
    : option (option error * list string) :=
  match tasks with
  | [] => Some (None, ["No tasks found." ++ newline])
  | _ =>
      match exec (start tasks) schedule with
      | None => None
      | Some st =>
          if joined st then
            match groupErr st with
            | Some err => Some (Some err, [])
            | None => Some (None, writeTasks (commentsMap st) tasks)
            end
          else None
      end
  end.

End Details.

End Enrichment.

(** *** The view command *)

(** view.go lines 48-50: the priority line, when there is one. *)
Definition viewPriorityLine (priority : Z) : list string :=
  if 1 <? priority
  then ["Priority: p" ++ itoa (wrap64 (5 - priority)) ++ newline]
  else [].

(** [joinLabels], view.go lines 76-85. *)
Definition joinLabels (labels : list string) : string :=
  match labels with
  | [] => ""
  | first :: rest =>
      fold_left (fun result l => result ++ " @" ++ l) rest first
  end.

End cmd.

(** ** internal/output *)

Module output.

(** [priorityString]. *)
Definition priorityString (p : Z) : string :=
  if p =? 4 then "p1"
  else if p =? 3 then "p2"
  else if p =? 2 then "p3"
  else "".

(** [strings.Join(elems, sep)]. *)
Definition Join (elems : list string) (sep : string) : string :=
  String.concat sep elems.

(** How a call ends: it returns, with its error if it has one, or it
    panics. *)
Inductive ending : Type :=
| Returned (err : option error)
| Panicked.

(** [s[:n]]: a run-time panic when [s] has fewer than [n] bytes. *)
Definition sliceTo (s : string) (n : nat) : option string :=
  if (n <=? String.length s)%nat then Some (String.substring 0 n s)
  else None.

(** Whether the [CompletedAt] of an item has the 10 bytes of a date. *)
Definition datedItem (t : api.CompletedTask) : bool :=
  (10 <=? String.length (api.Completed_CompletedAt t))%nat.

Section Formatter.

(** [f.color.Wrap(code, s)] and the codes it is given belong to a file
    of the package that is not among the sources. *)
Variable Wrap : string -> string -> string.
Variables ANSIGray ANSIStrike : string.

(** The line [WriteCompletedTasks] prints for an item, from the date
    cut out of its [CompletedAt]. *)
Definition completedLine (date : string) (t : api.CompletedTask) : string :=
  Wrap ANSIGray date ++ "  " ++ Wrap ANSIStrike (api.Completed_Content t)
  ++ cmd.newline.

(** The loop of [WriteCompletedTasks]: the lines written, and how the
    loop ends. *)
Fixpoint writeCompletedItems (items : list api.CompletedTask)
    : list string * ending :=
  match items with
  | [] => ([], Returned None)
  | t :: rest =>
      match sliceTo (api.Completed_CompletedAt t) 10 with
      | None => ([], Panicked)
      | Some date =>
          let (out, e) := writeCompletedItems rest in
          (completedLine date t :: out, e)
      end
  end.

(** [WriteCompletedTasks] without [--json]. *)
Definition WriteCompletedTasks (items : list api.CompletedTask)
    : list string * ending :=
  match items with
  | [] => (["No completed tasks found." ++ cmd.newline], Returned None)
  | _ => writeCompletedItems items
  end.

End Formatter.

(** *** The task tree *)

Section Tree.

(** [FormatTaskLine] is taken as given. *)
Variable FormatTaskLine : api.Task -> string.

(** [sortTasks]: [sort.Slice] by [ChildOrder].  The field is not in the
    [Task] of client.go and the sort is not stable: the order it leaves
    stays a parameter. *)
Variable sortTasks : list api.Task -> list api.Task.

(** The tasks appended to [childrenMap[id]]. *)
Definition isChildOf (id : string) (t : api.Task) : bool :=
  negb (String.eqb (api.Task_ParentID t) "")
  && String.eqb (api.Task_ParentID t) id.

(** [childrenMap[id]] once its lists are sorted; no entry is no
    child. *)
Definition childrenOf (tasks : list api.Task) (id : string)
    : list api.Task :=
  match filter (isChildOf id) tasks with
  | [] => []
  | children => sortTasks children
  end.

(** [_, ok := taskMap[id]]. *)
Definition inTaskMap (tasks : list api.Task) (id : string) : bool :=
  existsb (fun t => String.eqb (api.Task_ID t) id) tasks.

(** The test of the second loop: no parent, or a parent that is not
    listed. *)
Definition isRoot (tasks : list api.Task) (t : api.Task) : bool :=
  String.eqb (api.Task_ParentID t) ""
  || negb (inTaskMap tasks (api.Task_ParentID t)).

Definition roots (tasks : list api.Task) : list api.Task :=
  sortTasks (filter (isRoot tasks) tasks).

(** [strings.Repeat]. *)
Fixpoint Repeat (s : string) (count : nat) : string :=
  match count with
  | O => ""
  | S count' => s ++ Repeat s count'
  end.

(** The line [printTaskRecursive] prints for a task at a level. *)
Definition taskLine (level : nat) (t : api.Task) : string :=
  Repeat "  " level ++ FormatTaskLine t ++ cmd.newline.

(** What calls made one after the other print, if they all return. *)
Fixpoint gather (parts : list (option (list string)))
    : option (list string) :=
  match parts with
  | [] => Some []
  | part :: rest =>
      match part, gather rest with
      | Some lines, Some more => Some (lines ++ more)%list
      | _, _ => None
      end
  end.

(** [printTaskRecursive]: the lines printed, or [None] when the
    recursion is deeper than [fuel]. *)
Fixpoint printTaskRecursive (fuel : nat) (tasks : list api.Task)
    (t : api.Task) (level : nat) : option (list string) :=
  match fuel with
  | O => None
  | S fuel' =>
      match gather
              (map (fun child => printTaskRecursive fuel' tasks child (S level))
                 (childrenOf tasks (api.Task_ID t))) with
      | Some below => Some (taskLine level t :: below)
      | None => None
      end
  end.

(** [WriteTasks] without [--json]. *)
Definition WriteTasks (fuel : nat) (tasks : list api.Task)
    : option (list string) :=
  match tasks with
  | [] => Some ["No tasks found." ++ cmd.newline]
  | _ =>
      gather (map (fun root => printTaskRecursive fuel tasks root 0)
                (roots tasks))
  end.

End Tree.

(** The listed tasks whose parent is one of [parents]. *)
Definition kids (tasks parents : list api.Task) : list api.Task :=
  flat_map (fun p => filter (isChildOf (api.Task_ID p)) tasks) parents.

(** [parents] and the tasks up to [m] generations below them. *)
Fixpoint below (tasks : list api.Task) (m : nat) (parents : list api.Task)
    : list api.Task :=
  match m with
  | O => parents
  | S m' => (parents ++ below tasks m' (kids tasks parents))%list
  end.

(** The listed tasks of one depth, and of the depths from [k] to
    [k + m]. *)
Definition atDepth (depth : api.Task -> nat) (tasks : list api.Task)
    (k : nat) : list api.Task :=
  filter (fun t => (depth t =? k)%nat) tasks.

Definition levels (depth : api.Task -> nat) (tasks : list api.Task)
    (k m : nat) : list api.Task :=
  flat_map (atDepth depth tasks) (seq k (S m)).

End output.

(** * Properties *)

(** ** The transport *)

Section Transport.

Import api.

Variable env : Env.

Lemma waitBeforeRetry_first lastErr :
  waitBeforeRetry env 0 lastErr = (None, []).
Proof. reflexivity. Qed.

Lemma waitBeforeRetry_rate_limit a d :
  ctxDone env (S a) = None ->
  waitBeforeRetry env (S a) (Some (RetryAfterError d))
  = (None, [EvRateLimitWait d]).
Proof. intros Hctx. unfold waitBeforeRetry. simpl. now rewrite Hctx. Qed.

Lemma waitBeforeRetry_at a :
  (0 < a -> ctxDone env a = None)%nat ->
  waitBeforeRetry env a (lastErrAt env a)
  = (None, match a with
           | O => []
           | S j => [EvRateLimitWait (waitAfter env j)]
           end).
Proof.
  destruct a as [|j]; intros Hctx.
  - reflexivity.
  - apply waitBeforeRetry_rate_limit. apply Hctx. lia.
Qed.

Lemma attemptEvents_split a :
  attemptEvents env a
  = (match a with
     | O => []
     | S j => [EvRateLimitWait (waitAfter env j)]
     end ++ [EvDo a])%list.
Proof. destruct a; reflexivity. Qed.

(** One retried iteration. *)
Lemma iteration_retried a :
  newRequestError env = None ->
  (0 < a -> ctxDone env a = None)%nat ->
  rateLimited env a -> (a < maxRetries)%nat ->
  iteration env a (lastErrAt env a)
  = (Continue (lastErrAt env (S a)), attemptEvents env a).
Proof.
  intros Hnew Hctx (resp & respBody & Hdo & Hread & Hstatus) Hlt.
  unfold iteration. rewrite waitBeforeRetry_at by assumption.
  unfold attemptOnce. rewrite Hnew, Hdo, Hread, Hstatus.
  apply Nat.ltb_lt in Hlt. rewrite Hlt. simpl andb. cbv iota.
  rewrite attemptEvents_split. unfold lastErrAt, waitAfter. now rewrite Hdo.
Qed.

(** An iteration whose response is not retried. *)
Lemma iteration_terminal a resp respBody :
  newRequestError env = None ->
  (0 < a -> ctxDone env a = None)%nat ->
  Do env a = DoResponse resp -> ReadAll resp = Ok respBody ->
  StatusCode resp <> 429 \/ (maxRetries <= a)%nat ->
  iteration env a (lastErrAt env a)
  = (Return (classify (StatusCode resp) respBody), attemptEvents env a).
Proof.
  intros Hnew Hctx Hdo Hread Hterm.
  unfold iteration. rewrite waitBeforeRetry_at by assumption.
  unfold attemptOnce. rewrite Hnew, Hdo, Hread.
  replace ((StatusCode resp =? 429) && (a <? maxRetries)%nat) with false.
  - now rewrite attemptEvents_split.
  - symmetry. apply andb_false_iff. destruct Hterm as [Hne | Hge].
    + left. now apply Z.eqb_neq.
    + right. now apply Nat.ltb_ge.
Qed.

(** An iteration whose exchange fails. *)
Lemma iteration_do_error a e :
  newRequestError env = None ->
  (0 < a -> ctxDone env a = None)%nat ->
  Do env a = DoError e ->
  iteration env a (lastErrAt env a)
  = (Return (Err (NetworkError "request failed" e)), attemptEvents env a).
Proof.
  intros Hnew Hctx Hdo.
  unfold iteration. rewrite waitBeforeRetry_at by assumption.
  unfold attemptOnce. rewrite Hnew, Hdo.
  now rewrite attemptEvents_split.
Qed.

Lemma iteration_read_error a resp e :
  newRequestError env = None ->
  (0 < a -> ctxDone env a = None)%nat ->
  Do env a = DoResponse resp -> ReadAll resp = Err e ->
  iteration env a (lastErrAt env a)
  = (Return (Err (NetworkError "failed to read response" e)),
     attemptEvents env a).
Proof.
  intros Hnew Hctx Hdo Hread.
  unfold iteration. rewrite waitBeforeRetry_at by assumption.
  unfold attemptOnce. rewrite Hnew, Hdo, Hread.
  now rewrite attemptEvents_split.
Qed.

(** [k] retried attempts in a row, from attempt [a] on. *)
Lemma attemptLoop_retried k : forall a rest,
  newRequestError env = None ->
  (forall i, a <= i < a + k -> rateLimited env i /\ i < maxRetries)%nat ->
  (forall i, 0 < i < a + k -> ctxDone env i = None)%nat ->
  attemptLoop env (seq a k ++ rest) (lastErrAt env a)
  = (fst (attemptLoop env rest (lastErrAt env (a + k))),
     flat_map (attemptEvents env) (seq a k)
     ++ snd (attemptLoop env rest (lastErrAt env (a + k))))%list.
Proof.
  induction k as [|k IH]; intros a rest Hnew Hretried Hctx.
  - rewrite Nat.add_0_r. simpl. now destruct (attemptLoop env rest _).
  - cbn [seq app attemptLoop flat_map].
    destruct (Hretried a ltac:(lia)) as [Hrl Hlt].
    rewrite (iteration_retried a Hnew) by (auto; intros; apply Hctx; lia).
    rewrite (IH (S a) rest Hnew).
    + replace (S a + k)%nat with (a + S k)%nat by lia.
      now rewrite <- app_assoc.
    + intros i Hi. apply Hretried. lia.
    + intros i Hi. apply Hctx. lia.
Qed.

Lemma attemptsTrace_S n :
  attemptsTrace env (S n) = (attemptsTrace env n ++ attemptEvents env n)%list.
Proof.
  unfold attemptsTrace. rewrite seq_S, flat_map_app. simpl.
  now rewrite app_nil_r.
Qed.

Lemma attemptsMade_app t1 t2 :
  attemptsMade (t1 ++ t2) = (attemptsMade t1 + attemptsMade t2)%nat.
Proof. unfold attemptsMade. now rewrite filter_app, length_app. Qed.

Lemma attemptsMade_attemptsTrace n : attemptsMade (attemptsTrace env n) = n.
Proof.
  induction n as [|n IH]; [reflexivity|].
  rewrite attemptsTrace_S, attemptsMade_app, IH.
  replace (attemptsMade (attemptEvents env n)) with 1%nat
    by (destruct n; reflexivity).
  lia.
Qed.

Lemma waits_app t1 t2 : waits (t1 ++ t2) = (waits t1 ++ waits t2)%list.
Proof.
  induction t1 as [|[d|d|i] t1 IH]; simpl; now rewrite ?IH.
Qed.

Lemma waits_attemptsTrace n :
  waits (attemptsTrace env (S n)) = map (waitAfter env) (seq 0 n).
Proof.
  induction n as [|n IH]; [reflexivity|].
  rewrite attemptsTrace_S, waits_app, IH, seq_S, map_app. reflexivity.
Qed.

(** The wait of a 429 response, read off its header: the seconds of
    [Retry-After] when [Atoi] accepts it and the nanoseconds fit a
    [Duration], five seconds when [Atoi] refuses it. *)
Lemma rateLimitWait_spec h :
  match strconv.Atoi (Header_Get h "Retry-After") with
  | Some secs =>
      - 9223372036 <= secs <= 9223372036 ->
      rateLimitWait h = secs * 1000000000
  | None => rateLimitWait h = 5 * 1000000000
  end.
Proof.
  unfold rateLimitWait.
  destruct (Header_Get h "Retry-After") as [|c ra] eqn:Hra; [reflexivity|].
  cbn [String.eqb].
  destruct (strconv.Atoi (String c ra)) as [secs|]; [|reflexivity].
  intros Hrange. unfold time.Seconds, time.Second, wrap64.
  rewrite Z.mod_small; lia.
Qed.

(** The scenario of a call whose first [k] attempts are all answered 429
    and retried, with nothing else going wrong on the way. *)
Section AfterRetries.

Variable k : nat.
Hypothesis Hmarshal : marshalError env = None.
Hypothesis Hnew : newRequestError env = None.
Hypothesis Hk : (k <= maxRetries)%nat.
Hypothesis Hretried : forall i, (i < k)%nat -> rateLimited env i.
Hypothesis Hctx : forall i, (0 < i <= k)%nat -> ctxDone env i = None.

Lemma requestCtx_after_retries :
  requestCtx env
  = (fst (attemptLoop env (seq k (S maxRetries - k)) (lastErrAt env k)),
     attemptsTrace env k
     ++ snd (attemptLoop env (seq k (S maxRetries - k)) (lastErrAt env k)))%list.
Proof.
  unfold requestCtx. rewrite Hmarshal.
  replace (S maxRetries) with (k + (S maxRetries - k))%nat at 1 by lia.
  rewrite seq_app. change (@None error) with (lastErrAt env 0).
  rewrite (attemptLoop_retried k 0 _ Hnew).
  - reflexivity.
  - intros i Hi. split; [apply Hretried | ]; lia.
  - intros i Hi. apply Hctx. lia.
Qed.

(** The call ends with what attempt [k] returns. *)
Lemma requestCtx_ends_at r :
  iteration env k (lastErrAt env k) = (Return r, attemptEvents env k) ->
  requestCtx env = (r, attemptsTrace env (S k)).
Proof.
  intros Hit. rewrite requestCtx_after_retries.
  replace (S maxRetries - k)%nat with (S (maxRetries - k)) by lia.
  cbn [seq attemptLoop]. rewrite Hit. cbn [fst snd].
  now rewrite attemptsTrace_S.
Qed.

(** C7. When the response to attempt [k] is not retried (its status is
    not 429, or no retry is left), the call returns by its status code:
    below 400 the body and no error; for 401 and 403 an authentication
    failure; for any other status from 400 on the generic API failure,
    whose message carries the status code and the body text. *)
Theorem requestCtx_classifies_terminal_response resp respBody :
  Do env k = DoResponse resp -> ReadAll resp = Ok respBody ->
  StatusCode resp <> 429 \/ k = maxRetries ->
  (StatusCode resp < 400 -> fst (requestCtx env) = Ok respBody) /\
  (StatusCode resp = 401 \/ StatusCode resp = 403 ->
   fst (requestCtx env)
   = Err (clerrors.WrapAuthError "authentication failed"
            (ErrorString ("API error (" ++ itoa (StatusCode resp) ++ "): "
                          ++ respBody)))) /\
  (400 <= StatusCode resp ->
   StatusCode resp <> 401 -> StatusCode resp <> 403 ->
   fst (requestCtx env)
   = Err (ErrorString ("API error (" ++ itoa (StatusCode resp) ++ "): "
                       ++ respBody))).
Proof.
  intros Hdo Hread Hterm.
  assert (Hres : fst (requestCtx env) = classify (StatusCode resp) respBody).
  { rewrite (requestCtx_ends_at (classify (StatusCode resp) respBody)).
    - reflexivity.
    - apply iteration_terminal;
        [ exact Hnew | intros Hpos; apply Hctx; lia | exact Hdo | exact Hread
        | destruct Hterm as [Hne | ->]; [now left | right; lia] ]. }
  rewrite Hres. unfold classify, apiErr. split; [|split].
  - intros Hlt. apply Z.leb_gt in Hlt. now rewrite Hlt.
  - intros [-> | ->]; reflexivity.
  - intros Hge Hne1 Hne3. apply Z.leb_le in Hge. rewrite Hge.
    apply Z.eqb_neq in Hne1, Hne3. now rewrite Hne1, Hne3.
Qed.

(** C8. When the exchange of attempt [k] fails at the network level
    (the call of [Do] fails, or the body cannot be read), the call
    returns the network failure at once: attempt [k] is the last event of
    the trace, so no wait and no attempt follows it, and [k + 1] attempts
    were made in all, the [k] earlier ones being retried 429 answers. *)
Theorem requestCtx_network_error_not_retried :
  (forall e, Do env k = DoError e ->
     fst (requestCtx env)
     = Err (clerrors.WrapNetworkError "request failed" e)) /\
  (forall resp e, Do env k = DoResponse resp -> ReadAll resp = Err e ->
     fst (requestCtx env)
     = Err (clerrors.WrapNetworkError "failed to read response" e)) /\
  ((exists e, Do env k = DoError e) \/
   (exists resp e, Do env k = DoResponse resp /\ ReadAll resp = Err e) ->
   snd (requestCtx env)
   = (attemptsTrace env k
      ++ match k with
         | O => []
         | S j => [EvRateLimitWait (waitAfter env j)]
         end ++ [EvDo k])%list /\
   attemptsMade (snd (requestCtx env)) = S k).
Proof.
  assert (Hwait : (0 < k -> ctxDone env k = None)%nat)
    by (intros; apply Hctx; lia).
  assert (Htrace : forall r,
            requestCtx env = (r, attemptsTrace env (S k)) ->
            snd (requestCtx env)
            = (attemptsTrace env k
               ++ match k with
                  | O => []
                  | S j => [EvRateLimitWait (waitAfter env j)]
                  end ++ [EvDo k])%list /\
            attemptsMade (snd (requestCtx env)) = S k).
  { intros r ->. cbn [snd]. split.
    - now rewrite attemptsTrace_S, attemptEvents_split.
    - apply attemptsMade_attemptsTrace. }
  split; [|split].
  - intros e Hdo. erewrite requestCtx_ends_at; [reflexivity|].
    now apply iteration_do_error.
  - intros resp e Hdo Hread. erewrite requestCtx_ends_at; [reflexivity|].
    now apply iteration_read_error with (resp := resp).
  - intros [[e Hdo] | (resp & e & Hdo & Hread)].
    + apply (Htrace (Err (NetworkError "request failed" e))).
      apply requestCtx_ends_at. now apply iteration_do_error.
    + apply (Htrace (Err (NetworkError "failed to read response" e))).
      apply requestCtx_ends_at.
      now apply iteration_read_error with (resp := resp).
Qed.

(** When attempt [k] is answered 2xx after [k] retried 429 answers, the
    call returns the body after [k + 1] attempts, and the wait before
    each retry is the one read off the 429 answer before it. *)
Theorem requestCtx_succeeds_after_retries resp respBody :
  Do env k = DoResponse resp -> ReadAll resp = Ok respBody ->
  200 <= StatusCode resp < 300 ->
  requestCtx env = (Ok respBody, attemptsTrace env (S k)) /\
  attemptsMade (snd (requestCtx env)) = S k /\
  waits (snd (requestCtx env)) = map (waitAfter env) (seq 0 k) /\
  (forall i r, (i < k)%nat -> Do env i = DoResponse r ->
     match strconv.Atoi (Header_Get (RespHeader r) "Retry-After") with
     | Some secs =>
         - 9223372036 <= secs <= 9223372036 ->
         waitAfter env i = secs * 1000000000
     | None => waitAfter env i = 5 * 1000000000
     end).
Proof.
  intros Hdo Hread Hstatus.
  assert (Hreq : requestCtx env = (Ok respBody, attemptsTrace env (S k))).
  { apply requestCtx_ends_at.
    replace (Ok respBody) with (classify (StatusCode resp) respBody).
    - apply iteration_terminal;
        [ exact Hnew | intros Hpos; apply Hctx; lia | exact Hdo | exact Hread
        | left; lia ].
    - unfold classify. destruct (400 <=? StatusCode resp) eqn:Hge;
        [apply Z.leb_le in Hge; lia | reflexivity]. }
  rewrite Hreq. cbn [snd]. split; [reflexivity|]. split; [|split].
  - apply attemptsMade_attemptsTrace.
  - apply waits_attemptsTrace.
  - intros i r _ Hi. unfold waitAfter. rewrite Hi. apply rateLimitWait_spec.
Qed.

(** When attempt [k] is answered 429 with a retry left and the context
    is done during the wait that follows, the call returns [ctx.Err()]
    at once: attempt [k] stays the last one. *)
Theorem requestCtx_cancelled_during_wait c :
  (k < maxRetries)%nat -> rateLimited env k ->
  ctxDone env (S k) = Some c ->
  requestCtx env = (Err (ctxError c), attemptsTrace env (S k)).
Proof.
  intros Hlt Hrl Hdone. rewrite requestCtx_after_retries.
  replace (S maxRetries - k)%nat with (S (S (maxRetries - S k))) by lia.
  cbn [seq attemptLoop].
  rewrite (iteration_retried k Hnew) by (auto; intros; apply Hctx; lia).
  assert (Hit : iteration env (S k) (lastErrAt env (S k))
                = (Return (Err (ctxError c)), [])).
  { unfold iteration, waitBeforeRetry. cbn [Nat.ltb Nat.leb lastErrAt].
    now rewrite Hdone. }
  rewrite Hit. cbn [fst snd]. now rewrite app_nil_r, attemptsTrace_S.
Qed.

End AfterRetries.

(** *** The loop never runs out of attempts *)

Lemma waitBeforeRetry_returns a lastErr e evs :
  waitBeforeRetry env a lastErr = (Some e, evs) ->
  exists c, e = ctxError c.
Proof.
  unfold waitBeforeRetry. destruct (0 <? a)%nat; [|discriminate].
  destruct lastErr as [lastErr|]; [|discriminate].
  destruct lastErr; destruct (ctxDone env a) as [c|];
    intros H; inversion H; now exists c.
Qed.

Lemma attemptOnce_returns a :
  match fst (attemptOnce env a) with
  | Return r => isRetriesExceeded r = false
  | Continue _ => (a < maxRetries)%nat
  end.
Proof.
  unfold attemptOnce.
  destruct (newRequestError env); [reflexivity|].
  destruct (Do env a) as [e|resp]; [reflexivity|].
  destruct (ReadAll resp) as [respBody|e]; [|reflexivity].
  destruct ((StatusCode resp =? 429) && (a <? maxRetries)%nat) eqn:Hretry.
  - apply andb_true_iff in Hretry. now apply Nat.ltb_lt.
  - cbn [fst]. unfold classify.
    destruct (400 <=? StatusCode resp); [|reflexivity].
    now destruct ((StatusCode resp =? 401) || (StatusCode resp =? 403)).
Qed.

Lemma attemptLoop_not_exceeded n : forall a lastErr,
  (a + n = S maxRetries)%nat -> (0 < n)%nat ->
  isRetriesExceeded (fst (attemptLoop env (seq a n) lastErr)) = false.
Proof.
  induction n as [|n IH]; intros a lastErr Hsum Hpos; [lia|].
  cbn [seq attemptLoop]. unfold iteration.
  destruct (waitBeforeRetry env a lastErr) as [[e|] evs] eqn:Hwait.
  - apply waitBeforeRetry_returns in Hwait as [c ->]. now destruct c.
  - pose proof (attemptOnce_returns a) as Honce.
    destruct (attemptOnce env a) as [[lastErr'|r] evs']; cbn [fst] in Honce.
    + specialize (IH (S a) lastErr' ltac:(lia) ltac:(lia)).
      now destruct (attemptLoop env (seq (S a) n) lastErr').
    + exact Honce.
Qed.

(** Whatever the server, the network and the context do, [requestCtx]
    never returns the result of line 181. *)
Lemma requestCtx_never_retries_exceeded :
  isRetriesExceeded (fst (requestCtx env)) = false.
Proof.
  unfold requestCtx. destruct (marshalError env); [reflexivity|].
  apply attemptLoop_not_exceeded; unfold maxRetries; lia.
Qed.

(** *** What the loop carries from one attempt to the next *)

Lemma iteration_continue a lastErr lastErr' evs :
  iteration env a lastErr = (Continue lastErr', evs) ->
  exists resp,
    Do env a = DoResponse resp /\ StatusCode resp = 429 /\
    lastErr' = Some (RetryAfterError (rateLimitWait (RespHeader resp))).
Proof.
  unfold iteration.
  destruct (waitBeforeRetry env a lastErr) as [[e|] evs0]; [discriminate|].
  unfold attemptOnce.
  destruct (newRequestError env); [discriminate|].
  destruct (Do env a) as [e|resp]; [discriminate|].
  destruct (ReadAll resp) as [respBody|e]; [|discriminate].
  destruct (StatusCode resp =? 429) eqn:Hstatus; [|discriminate].
  destruct (a <? maxRetries)%nat; [|discriminate].
  intros H. inversion H. exists resp. apply Z.eqb_eq in Hstatus. auto.
Qed.

Lemma reachable_lastErr a lastErr :
  reachable env a lastErr -> (0 < a)%nat ->
  exists resp,
    Do env (a - 1) = DoResponse resp /\ StatusCode resp = 429 /\
    lastErr = Some (RetryAfterError (rateLimitWait (RespHeader resp))).
Proof.
  intros Hreach. destruct Hreach as [|a lastErr lastErr' evs _ _ Hit].
  - lia.
  - intros _. replace (S a - 1)%nat with a by lia.
    now apply iteration_continue in Hit.
Qed.

Lemma attemptLoop_waitsFollow429 n : forall a lastErr,
  entered env a lastErr ->
  waitsFollow429 env (match a with O => None | S j => Some j end)
    (snd (attemptLoop env (seq a n) lastErr)).
Proof.
  induction n as [|n IH]; intros a lastErr Hentered; [apply wf_nil|].
  cbn [seq attemptLoop].
  assert (Hrest : forall evs,
            iteration env a lastErr
            = (fst (attemptOnce env a), evs ++ snd (attemptOnce env a))%list ->
            waitsFollow429 env None
              (snd (attemptOnce env a)
               ++ match fst (attemptOnce env a) with
                  | Return _ => []
                  | Continue lastErr' =>
                      snd (attemptLoop env (seq (S a) n) lastErr')
                  end)%list).
  { intros evs Hit.
    destruct (attemptOnce env a) as [[lastErr'|r] evs'] eqn:Honce;
      cbn [fst snd] in *.
    - apply iteration_continue in Hit.
      specialize (IH (S a) lastErr' Hit).
      revert Honce. unfold attemptOnce.
      destruct (newRequestError env); [discriminate|].
      destruct (Do env a) as [e|resp]; [discriminate|].
      destruct (ReadAll resp); [|discriminate].
      destruct ((StatusCode resp =? 429) && (a <? maxRetries)%nat);
        [|discriminate].
      intros Honce. inversion Honce. subst. cbn [app]. apply wf_do. exact IH.
    - rewrite app_nil_r. revert Honce. unfold attemptOnce.
      destruct (newRequestError env);
        [intros Honce; inversion Honce; apply wf_nil|].
      destruct (Do env a) as [e|resp];
        [intros Honce; inversion Honce; apply wf_do, wf_nil|].
      destruct (ReadAll resp);
        [|intros Honce; inversion Honce; apply wf_do, wf_nil].
      destruct ((StatusCode resp =? 429) && (a <? maxRetries)%nat);
        [discriminate|].
      intros Honce. inversion Honce. apply wf_do, wf_nil. }
  destruct a as [|j].
  - assert (Hit : iteration env 0 lastErr
                  = (fst (attemptOnce env 0), [] ++ snd (attemptOnce env 0))%list).
    { unfold iteration. rewrite waitBeforeRetry_first.
      now destruct (attemptOnce env 0). }
    specialize (Hrest [] Hit). rewrite Hit.
    destruct (attemptOnce env 0) as [[lastErr'|r] evs']; cbn [fst snd app] in *.
    + destruct (attemptLoop env (seq 1 n) lastErr'). exact Hrest.
    + now rewrite app_nil_r in Hrest.
  - destruct Hentered as (resp & Hdo & Hstatus & ->).
    unfold iteration in *. unfold waitBeforeRetry in *.
    cbn [Nat.ltb Nat.leb] in *.
    destruct (ctxDone env (S j)); [apply wf_nil|].
    assert (Hit : (let (s, evs') := attemptOnce env (S j) in
                   (s, [EvRateLimitWait (rateLimitWait (RespHeader resp))]
                       ++ evs')%list)
                  = (fst (attemptOnce env (S j)),
                     [EvRateLimitWait (rateLimitWait (RespHeader resp))]
                     ++ snd (attemptOnce env (S j)))%list)
      by now destruct (attemptOnce env (S j)).
    specialize (Hrest _ Hit).
    destruct (attemptOnce env (S j)) as [[lastErr'|r] evs']; cbn [fst snd] in *.
    + destruct (attemptLoop env (seq (S (S j)) n) lastErr'). cbn [snd app] in *.
      now apply wf_wait with (i := j).
    + rewrite app_nil_r in Hrest. cbn [snd app]. now apply wf_wait with (i := j).
Qed.

Lemma waitsFollow429_no_backoff prev t d :
  waitsFollow429 env prev t -> ~ In (EvBackoffWait d) t.
Proof.
  induction 1 as [prev|prev i t _ IH|i resp t _ _ _ IH]; simpl.
  - tauto.
  - intros [Heq|Hin]; [discriminate | tauto].
  - intros [Heq|Hin]; [discriminate | tauto].
Qed.

End Transport.

(** *** Worked calls against scripted servers *)

(** Discharges [rateLimited (scripted ...) i] for a bounded [i]. *)
Ltac rate_limited :=
  let i := fresh "i" in
  let Hi := fresh "Hi" in
  intros i Hi;
  do 4 (try (destruct i as [|i];
               [do 2 eexists; repeat split; reflexivity|]));
  exfalso; unfold api.maxRetries in *; lia.

Lemma requestCtx_classifies_terminal_response_witness :
  fst (api.requestCtx
         (api.scripted [api.respond 429 [("Retry-After", "1")] "slow down"]
            (api.respond 403 [] "forbidden")))
  = Err (clerrors.WrapAuthError "authentication failed"
           (ErrorString "API error (403): forbidden")).
Proof.
  refine (proj1 (proj2
    (requestCtx_classifies_terminal_response
       (api.scripted [api.respond 429 [("Retry-After", "1")] "slow down"]
          (api.respond 403 [] "forbidden"))
       1 eq_refl eq_refl _ _ _
       {| api.StatusCode := 403; api.RespHeader := [];
          api.ReadAll := Ok "forbidden" |}
       "forbidden" eq_refl eq_refl _)) _).
  - unfold api.maxRetries. lia.
  - rate_limited.
  - reflexivity.
  - left. discriminate.
  - right. reflexivity.
Defined.

Lemma requestCtx_network_error_not_retried_witness :
  fst (api.requestCtx
         (api.scripted [api.respond 429 [] "slow down"]
            (api.DoError (LibraryError "connection refused"))))
  = Err (clerrors.WrapNetworkError "request failed"
           (LibraryError "connection refused")).
Proof.
  refine (proj1
    (requestCtx_network_error_not_retried
       (api.scripted [api.respond 429 [] "slow down"]
          (api.DoError (LibraryError "connection refused")))
       1 eq_refl eq_refl _ _ _) (LibraryError "connection refused") eq_refl).
  - unfold api.maxRetries. lia.
  - rate_limited.
  - reflexivity.
Defined.

Lemma requestCtx_succeeds_after_retries_witness :
  api.requestCtx
    (api.scripted
       [api.respond 429 [("Retry-After", "0")] "rate limited";
        api.respond 429 [("Retry-After", "0")] "rate limited"]
       (api.respond 200 [] "[]"))
  = (Ok "[]",
     [api.EvDo 0; api.EvRateLimitWait 0; api.EvDo 1; api.EvRateLimitWait 0;
      api.EvDo 2]).
Proof.
  refine (proj1
    (requestCtx_succeeds_after_retries
       (api.scripted
          [api.respond 429 [("Retry-After", "0")] "rate limited";
           api.respond 429 [("Retry-After", "0")] "rate limited"]
          (api.respond 200 [] "[]"))
       2 eq_refl eq_refl _ _ _
       {| api.StatusCode := 200; api.RespHeader := [];
          api.ReadAll := Ok "[]" |}
       "[]" eq_refl eq_refl _)).
  - unfold api.maxRetries. lia.
  - rate_limited.
  - reflexivity.
  - cbn. lia.
Defined.

Lemma requestCtx_cancelled_during_wait_witness :
  api.requestCtx
    {| api.marshalError := None;
       api.newRequestError := None;
       api.Do := fun _ => api.respond 429 [("Retry-After", "30")] "slow down";
       api.ctxDone := fun _ => Some api.ctxCanceled |}
  = (Err Canceled, [api.EvDo 0]).
Proof.
  refine (requestCtx_cancelled_during_wait
            {| api.marshalError := None;
               api.newRequestError := None;
               api.Do :=
                 fun _ => api.respond 429 [("Retry-After", "30")] "slow down";
               api.ctxDone := fun _ => Some api.ctxCanceled |}
            0 eq_refl eq_refl _ _ _ api.ctxCanceled _ _ eq_refl).
  - unfold api.maxRetries. lia.
  - intros i Hi. lia.
  - intros i Hi. lia.
  - unfold api.maxRetries. lia.
  - do 2 eexists. repeat split; reflexivity.
Defined.

(** C1. A server that answers 429 to every attempt is asked four times
    (the first attempt and [maxRetries] retries), each retry after the
    wait the answer before it asked for.  The fourth 429 is not retried
    and is classified like any other status from 400 on: the call returns
    the generic API failure for status 429 with the last body, and not
    the failure of line 181 that wraps the last rate-limit error. *)
Theorem requestCtx_all_429 (env : api.Env) resp respBody :
  api.marshalError env = None -> api.newRequestError env = None ->
  (forall i, (i < api.maxRetries)%nat -> api.rateLimited env i) ->
  (forall i, (0 < i <= api.maxRetries)%nat -> api.ctxDone env i = None) ->
  api.Do env api.maxRetries = api.DoResponse resp ->
  api.ReadAll resp = Ok respBody -> api.StatusCode resp = 429 ->
  api.requestCtx env
  = (Err (ErrorString ("API error (429): " ++ respBody)),
     api.attemptsTrace env 4) /\
  api.attemptsMade (snd (api.requestCtx env)) = 4%nat /\
  api.isRetriesExceeded (fst (api.requestCtx env)) = false.
Proof.
  intros Hmarshal Hnew Hretried Hctx Hdo Hread Hstatus.
  assert (Hreq : api.requestCtx env
                 = (Err (ErrorString ("API error (429): " ++ respBody)),
                    api.attemptsTrace env 4)).
  { apply (requestCtx_ends_at env api.maxRetries); auto.
    replace (Err (ErrorString ("API error (429): " ++ respBody)))
      with (api.classify (api.StatusCode resp) respBody)
      by (now rewrite Hstatus).
    apply iteration_terminal; auto. }
  rewrite Hreq. cbn [fst snd]. split; [reflexivity|]. split.
  - apply attemptsMade_attemptsTrace.
  - reflexivity.
Qed.

Lemma requestCtx_all_429_witness :
  api.requestCtx
    (api.scripted [] (api.respond 429 [("Retry-After", "0")] "rate limited"))
  = (Err (ErrorString "API error (429): rate limited"),
     [api.EvDo 0; api.EvRateLimitWait 0; api.EvDo 1; api.EvRateLimitWait 0;
      api.EvDo 2; api.EvRateLimitWait 0; api.EvDo 3]).
Proof.
  refine (proj1
    (requestCtx_all_429
       (api.scripted []
          (api.respond 429 [("Retry-After", "0")] "rate limited"))
       {| api.StatusCode := 429; api.RespHeader := [("Retry-After", "0")];
          api.ReadAll := Ok "rate limited" |}
       "rate limited" eq_refl eq_refl _ _ eq_refl eq_refl eq_refl)).
  - rate_limited.
  - reflexivity.
Defined.

(** C2, at a [Retry-After] whose nanoseconds do not fit a [Duration].
    The header ["9223372037"] is present and [Atoi] accepts it; the
    multiplication by [time.Second] wraps around, and the wait handed to
    the timer before the retry is negative instead of 9223372037
    seconds.  The call still succeeds on the second attempt. *)
Theorem requestCtx_retry_after_overflow :
  strconv.Atoi "9223372037" = Some 9223372037 /\
  api.requestCtx
    (api.scripted
       [api.respond 429 [("Retry-After", "9223372037")] "rate limited"]
       (api.respond 200 [] "[]"))
  = (Ok "[]",
     [api.EvDo 0; api.EvRateLimitWait (-9223372036709551616); api.EvDo 1]) /\
  -9223372036709551616 <> 9223372037 * time.Second.
Proof.
  split; [reflexivity|]. split; [vm_compute; reflexivity|].
  unfold time.Second. lia.
Qed.

(** C9. On entering any iteration but the first, [lastErr] is the
    [retryAfterError] the 429 branch built from the answer to the attempt
    before.  So the exponential back-off branch is never taken: the
    trace of a call holds no back-off wait, and each wait in it stands
    directly after an attempt that was answered 429 and lasts what that
    answer asked for. *)
Theorem retry_loop_waits_only_on_rate_limit (env : api.Env) :
  (forall attempt lastErr,
     api.reachable env attempt lastErr -> (0 < attempt)%nat ->
     exists resp,
       api.Do env (attempt - 1) = api.DoResponse resp /\
       api.StatusCode resp = 429 /\
       lastErr
       = Some (RetryAfterError (api.rateLimitWait (api.RespHeader resp)))) /\
  (forall d, ~ In (api.EvBackoffWait d) (snd (api.requestCtx env))) /\
  api.waitsFollow429 env None (snd (api.requestCtx env)).
Proof.
  assert (Hwf : api.waitsFollow429 env None (snd (api.requestCtx env))).
  { unfold api.requestCtx. destruct (api.marshalError env).
    - apply api.wf_nil.
    - exact (attemptLoop_waitsFollow429 env _ 0 None I). }
  split; [|split].
  - intros attempt lastErr. apply (reachable_lastErr env).
  - intros d. exact (waitsFollow429_no_backoff env None _ d Hwf).
  - exact Hwf.
Qed.

(** ** Lookup by name *)

Section Strings.

Lemma HasPrefix_spec s prefix :
  strings.HasPrefix s prefix = true <-> exists after, s = prefix ++ after.
Proof.
  revert s. induction prefix as [|p prefix IH]; intros s.
  - split; [intros _; now exists s | now destruct s].
  - destruct s as [|c s]; cbn [strings.HasPrefix].
    + split; [discriminate | intros [after H]; discriminate].
    + rewrite andb_true_iff, Ascii.eqb_eq, IH. split.
      * intros [-> [after ->]]. now exists after.
      * intros [after H]. inversion H. split; [reflexivity | now exists after].
Qed.

Lemma Contains_spec s substr :
  strings.Contains s substr = true <-> strings.Substring substr s.
Proof.
  unfold strings.Substring.
  induction s as [|c s IH]; cbn [strings.Contains];
    rewrite orb_true_iff, HasPrefix_spec.
  - split.
    + intros [[after H] | H]; [|discriminate]. now exists "", after.
    + intros (before & after & H). left.
      destruct before; [now exists after | discriminate].
  - rewrite IH. split.
    + intros [[after H] | (before & after & H)].
      * now exists "", after.
      * exists (String c before), after. simpl. now rewrite H.
    + intros (before & after & H). destruct before as [|b before].
      * left. now exists after.
      * right. inversion H. now exists before, after.
Qed.

Lemma Contains_empty s : strings.Contains s "" = true.
Proof. now destruct s. Qed.

Variable mapUnicodeLower : string -> string.

Lemma ToLower_empty : strings.ToLower mapUnicodeLower "" = "".
Proof. reflexivity. Qed.

Lemma Contains_nameMatches name q :
  strings.Contains (strings.ToLower mapUnicodeLower name)
    (strings.ToLower mapUnicodeLower q) = true
  <-> strings.nameMatches mapUnicodeLower name q.
Proof. apply Contains_spec. Qed.

(** A listing has a first entry whose name matches, or none that does. *)
Lemma first_match_or_none {A : Type} (name : A -> string) (l : list A) q :
  (exists before x after,
     l = (before ++ x :: after)%list /\
     strings.nameMatches mapUnicodeLower (name x) q /\
     Forall (fun y => ~ strings.nameMatches mapUnicodeLower (name y) q)
       before) \/
  (forall y, In y l -> ~ strings.nameMatches mapUnicodeLower (name y) q).
Proof.
  induction l as [|x l IH].
  - right. intros y [].
  - destruct (strings.Contains (strings.ToLower mapUnicodeLower (name x))
                (strings.ToLower mapUnicodeLower q)) eqn:Hc.
    + left. exists [], x, l. apply Contains_nameMatches in Hc. auto.
    + assert (Hx : ~ strings.nameMatches mapUnicodeLower (name x) q).
      { intros Hm. apply Contains_nameMatches in Hm. congruence. }
      destruct IH as [(before & y & after & -> & Hy & Hbefore) | Hnone].
      * left. exists (x :: before), y, after. auto.
      * right. intros y [<- | Hin]; auto.
Qed.

(** The scan of [FindProject] stops at the first project that matches. *)
Lemma scanProjects_first before p after q :
  strings.nameMatches mapUnicodeLower (api.Project_Name p) q ->
  Forall (fun x =>
            ~ strings.nameMatches mapUnicodeLower (api.Project_Name x) q)
    before ->
  api.scanProjects mapUnicodeLower (before ++ p :: after)
    (strings.ToLower mapUnicodeLower q) = Some p.
Proof.
  intros Hp Hbefore. induction Hbefore as [|x before Hx _ IH]; simpl.
  - apply Contains_nameMatches in Hp. now rewrite Hp.
  - destruct (strings.Contains _ _) eqn:Hc; [|exact IH].
    apply Contains_nameMatches in Hc. contradiction.
Qed.

Lemma scanProjects_none projects q :
  (forall x, In x projects ->
     ~ strings.nameMatches mapUnicodeLower (api.Project_Name x) q) ->
  api.scanProjects mapUnicodeLower projects
    (strings.ToLower mapUnicodeLower q) = None.
Proof.
  induction projects as [|x projects IH]; intros Hnone; simpl; [reflexivity|].
  destruct (strings.Contains _ _) eqn:Hc.
  - apply Contains_nameMatches in Hc. exfalso.
    apply (Hnone x); [now left | exact Hc].
  - apply IH. intros y Hy. apply Hnone. now right.
Qed.

(** So does the scan of [findSectionID]. *)
Lemma scanSections_first before s after q :
  strings.nameMatches mapUnicodeLower (api.Section_Name s) q ->
  Forall (fun x =>
            ~ strings.nameMatches mapUnicodeLower (api.Section_Name x) q)
    before ->
  cmd.scanSections mapUnicodeLower (before ++ s :: after)
    (strings.ToLower mapUnicodeLower q) = api.Section_ID s.
Proof.
  intros Hs Hbefore. induction Hbefore as [|x before Hx _ IH]; simpl.
  - apply Contains_nameMatches in Hs. now rewrite Hs.
  - destruct (strings.Contains _ _) eqn:Hc; [|exact IH].
    apply Contains_nameMatches in Hc. contradiction.
Qed.

Lemma scanSections_none sections q :
  (forall x, In x sections ->
     ~ strings.nameMatches mapUnicodeLower (api.Section_Name x) q) ->
  cmd.scanSections mapUnicodeLower sections
    (strings.ToLower mapUnicodeLower q) = "".
Proof.
  induction sections as [|x sections IH]; intros Hnone; simpl; [reflexivity|].
  destruct (strings.Contains _ _) eqn:Hc.
  - apply Contains_nameMatches in Hc. exfalso.
    apply (Hnone x); [now left | exact Hc].
  - apply IH. intros y Hy. apply Hnone. now right.
Qed.

(** C4. Resolution by name returns the first entry of the listing, in
    listing order, whose lowercased name contains the lowercased query:
    [FindProject] returns that project and [findSectionID] the ID of that
    section, whatever entries follow it, matching or not.  When no entry
    matches, [FindProject] fails with "project not found", and
    [findSectionID] returns the empty ID, which the move command reports
    as "section not found".  Every listing is in one of the two cases. *)
Theorem resolve_by_name_first_match
    (projects : list api.Project) (sections : list api.Section_)
    (q : string) :
  (forall before p after,
     projects = (before ++ p :: after)%list ->
     strings.nameMatches mapUnicodeLower (api.Project_Name p) q ->
     Forall (fun x =>
               ~ strings.nameMatches mapUnicodeLower (api.Project_Name x) q)
       before ->
     api.FindProject mapUnicodeLower (Ok projects) q = Ok p) /\
  ((forall x, In x projects ->
      ~ strings.nameMatches mapUnicodeLower (api.Project_Name x) q) ->
   api.FindProject mapUnicodeLower (Ok projects) q
   = Err (ErrorString ("project not found: " ++ q))) /\
  (forall before s after,
     sections = (before ++ s :: after)%list ->
     strings.nameMatches mapUnicodeLower (api.Section_Name s) q ->
     Forall (fun x =>
               ~ strings.nameMatches mapUnicodeLower (api.Section_Name x) q)
       before ->
     cmd.findSectionID mapUnicodeLower sections q = api.Section_ID s) /\
  ((forall x, In x sections ->
      ~ strings.nameMatches mapUnicodeLower (api.Section_Name x) q) ->
   cmd.findSectionID mapUnicodeLower sections q = "" /\
   cmd.moveSectionID mapUnicodeLower sections q
   = Err (ErrorString ("section not found: " ++ q))) /\
  ((exists before p after,
      projects = (before ++ p :: after)%list /\
      strings.nameMatches mapUnicodeLower (api.Project_Name p) q /\
      Forall (fun x =>
                ~ strings.nameMatches mapUnicodeLower (api.Project_Name x) q)
        before) \/
   (forall x, In x projects ->
      ~ strings.nameMatches mapUnicodeLower (api.Project_Name x) q)) /\
  ((exists before s after,
      sections = (before ++ s :: after)%list /\
      strings.nameMatches mapUnicodeLower (api.Section_Name s) q /\
      Forall (fun x =>
                ~ strings.nameMatches mapUnicodeLower (api.Section_Name x) q)
        before) \/
   (forall x, In x sections ->
      ~ strings.nameMatches mapUnicodeLower (api.Section_Name x) q)).
Proof.
  split; [|split; [|split; [|split; [|split]]]];
    [ | | | | apply first_match_or_none | apply first_match_or_none ].
  - intros before p after -> Hp Hbefore. unfold api.FindProject.
    now rewrite scanProjects_first.
  - intros Hnone. unfold api.FindProject.
    now rewrite scanProjects_none.
  - intros before s after -> Hs Hbefore. unfold cmd.findSectionID.
    now apply scanSections_first.
  - intros Hnone. unfold cmd.moveSectionID, cmd.findSectionID.
    now rewrite scanSections_none.
Qed.

(** C10. With the empty string as the name fragment, [FindProject]
    returns the first project of any listing that has one: the empty
    string lowercases to itself and every name contains it. *)
Theorem FindProject_empty_name (p : api.Project) (rest : list api.Project) :
  api.FindProject mapUnicodeLower (Ok (p :: rest)) "" = Ok p.
Proof.
  unfold api.FindProject. rewrite ToLower_empty. cbn [api.scanProjects].
  now rewrite Contains_empty.
Qed.

End Strings.

(** The listing of [TestFindProject_Found]: "work" resolves to the
    project at index 0 although the one at index 2 matches as well. *)
Lemma resolve_by_name_first_match_witness :
  api.FindProject (fun s => s)
    (Ok [api.namedProject "1" "Work"; api.namedProject "2" "Personal";
         api.namedProject "3" "Work Projects"])
    "work"
  = Ok (api.namedProject "1" "Work").
Proof.
  refine (proj1
    (resolve_by_name_first_match (fun s => s)
       [api.namedProject "1" "Work"; api.namedProject "2" "Personal";
        api.namedProject "3" "Work Projects"] [] "work")
    [] (api.namedProject "1" "Work")
    [api.namedProject "2" "Personal"; api.namedProject "3" "Work Projects"]
    eq_refl _ (Forall_nil _)).
  now exists "", "".
Defined.

(** ** The priority conversion *)

Section Priority.

Import api cmd.

Lemma find_key_app key (l1 l2 : list (string * json.Value)) :
  find (fun kv => String.eqb (fst kv) key) (l1 ++ l2)
  = match find (fun kv => String.eqb (fst kv) key) l1 with
    | Some kv => Some kv
    | None => find (fun kv => String.eqb (fst kv) key) l2
    end.
Proof.
  induction l1 as [|kv l1 IH]; simpl; [reflexivity|].
  now destruct (String.eqb (fst kv) key).
Qed.

Lemma find_strField key omitempty k value :
  String.eqb k key = false ->
  find (fun kv => String.eqb (fst kv) key) (strField omitempty k value) = None.
Proof.
  intros Hne. unfold strField.
  destruct (omitempty && String.eqb value ""); simpl; [reflexivity|].
  now rewrite Hne.
Qed.

Lemma find_labelsField labels :
  find (fun kv => String.eqb (fst kv) "priority") (labelsField labels) = None.
Proof. now destruct labels. Qed.

Lemma find_priorityField priority :
  find (fun kv => String.eqb (fst kv) "priority") (priorityField priority)
  = if priority =? 0 then None
    else Some ("priority", json.JNumber (itoa priority)).
Proof. unfold priorityField. now destruct (priority =? 0). Qed.

(** The "priority" member of the body of an add request. *)
Lemma member_priority_add p :
  member "priority" (marshalAddTaskParams p)
  = if Add_Priority p =? 0 then None
    else Some (json.JNumber (itoa (Add_Priority p))).
Proof.
  unfold member, marshalAddTaskParams.
  rewrite !find_key_app, !find_strField by reflexivity.
  rewrite find_labelsField, find_priorityField.
  now destruct (Add_Priority p =? 0).
Qed.

(** The "priority" member of the body of an update request. *)
Lemma member_priority_update p :
  member "priority" (marshalUpdateTaskParams p)
  = if Upd_Priority p =? 0 then None
    else Some (json.JNumber (itoa (Upd_Priority p))).
Proof.
  unfold member, marshalUpdateTaskParams.
  rewrite !find_key_app, !find_strField by reflexivity.
  rewrite find_labelsField, find_priorityField.
  now destruct (Upd_Priority p =? 0).
Qed.

Lemma wrap64_small z : - 2 ^ 63 <= z < 2 ^ 63 -> wrap64 z = z.
Proof. intros Hz. unfold wrap64. rewrite Z.mod_small; lia. Qed.

Variables content description due : string.
Variable labels : list string.

(** C5. For a priority flag [p] from 1 to 4 the add and the update
    command send the API priority [5 - p]; it lies from 1 to 4 again,
    and converting it once more gives [p] back, so the conversion is a
    bijection of [{1,2,3,4}] that is its own inverse.  A flag of 0 is
    not converted: the params keep priority 0 and the request body has
    no "priority" member. *)
Theorem priority_conversion :
  (forall p, 1 <= p <= 4 ->
     let api_p := Add_Priority (addParams content description due labels p) in
     api_p = 5 - p /\
     Upd_Priority (updateParams content description due labels p) = 5 - p /\
     1 <= api_p <= 4 /\
     Add_Priority (addParams content description due labels api_p) = p /\
     Upd_Priority (updateParams content description due labels api_p) = p /\
     member "priority"
       (marshalAddTaskParams (addParams content description due labels p))
     = Some (json.JNumber (itoa (5 - p))) /\
     member "priority"
       (marshalUpdateTaskParams
          (updateParams content description due labels p))
     = Some (json.JNumber (itoa (5 - p)))) /\
  (forall p q, 1 <= p <= 4 -> 1 <= q <= 4 ->
     Add_Priority (addParams content description due labels p)
     = Add_Priority (addParams content description due labels q) ->
     p = q) /\
  (forall a, 1 <= a <= 4 ->
     exists p, 1 <= p <= 4 /\
       Add_Priority (addParams content description due labels p) = a /\
       Upd_Priority (updateParams content description due labels p) = a) /\
  Add_Priority (addParams content description due labels 0) = 0 /\
  Upd_Priority (updateParams content description due labels 0) = 0 /\
  member "priority"
    (marshalAddTaskParams (addParams content description due labels 0))
  = None /\
  member "priority"
    (marshalUpdateTaskParams (updateParams content description due labels 0))
  = None.
Proof.
  assert (Hconv : forall p, 1 <= p <= 4 ->
            (if 0 <? p then wrap64 (5 - p) else 0) = 5 - p).
  { intros p Hp. destruct (0 <? p) eqn:Hpos; [|apply Z.ltb_ge in Hpos; lia].
    apply wrap64_small. lia. }
  repeat apply conj.
  - intros p Hp. cbv zeta.
    rewrite member_priority_add, member_priority_update.
    cbn [Add_Priority Upd_Priority addParams updateParams].
    rewrite !Hconv by lia.
    replace (5 - (5 - p)) with p by lia.
    destruct (5 - p =? 0) eqn:Hz; [apply Z.eqb_eq in Hz; lia|].
    repeat split; lia.
  - intros p q Hp Hq. cbn [Add_Priority addParams].
    rewrite !Hconv by lia. lia.
  - intros a Ha. exists (5 - a).
    cbn [Add_Priority Upd_Priority addParams updateParams].
    rewrite !Hconv by lia. lia.
  - reflexivity.
  - reflexivity.
  - now rewrite member_priority_add.
  - now rewrite member_priority_update.
Qed.

End Priority.

Lemma priority_conversion_witness :
  api.Add_Priority (cmd.addParams "Urgent task" "" "today 5pm" [] 1) = 4.
Proof.
  refine (proj1
    (proj1 (priority_conversion "Urgent task" "" "today 5pm" []) 1 _)).
  lia.
Defined.

(** ** Decoding a list response *)

Section UnmarshalList.

Variable foldName : string -> string.
Variable T : Type.
Variable decodeElem : json.Value -> result T.

(** C6. [unmarshalList] tries the paginated envelope first: of an
    object with a "results" member [A] and a "next_cursor" member that
    is a string or null (in either order) it decodes exactly [A].  A
    bare array does not fit the envelope and is decoded directly.  Both
    forms of the same array give the same result, the slice of its
    decoded elements when they all decode. *)
Theorem unmarshalList_envelope_or_bare
    (A : json.Value) (cursor : option string) (elems : list json.Value) :
  api.unmarshalList foldName T decodeElem
    (json.Text (json.JObject
       [("results", A); ("next_cursor", api.cursorValue cursor)]))
  = json.UnmarshalSlice T decodeElem (json.Text A) /\
  api.unmarshalList foldName T decodeElem
    (json.Text (json.JObject
       [("next_cursor", api.cursorValue cursor); ("results", A)]))
  = json.UnmarshalSlice T decodeElem (json.Text A) /\
  api.unmarshalList foldName T decodeElem (json.Text (json.JArray elems))
  = json.UnmarshalSlice T decodeElem (json.Text (json.JArray elems)) /\
  api.unmarshalList foldName T decodeElem
    (json.Text (json.JObject
       [("results", json.JArray elems); ("next_cursor", api.cursorValue cursor)]))
  = api.unmarshalList foldName T decodeElem (json.Text (json.JArray elems)) /\
  (forall xs, json.decodeElems T decodeElem elems = Ok xs ->
     api.unmarshalList foldName T decodeElem
       (json.Text (json.JObject
          [("results", json.JArray elems);
           ("next_cursor", api.cursorValue cursor)]))
     = Ok (json.Slice xs) /\
     api.unmarshalList foldName T decodeElem (json.Text (json.JArray elems))
     = Ok (json.Slice xs)) /\
  (forall data page raw,
     api.UnmarshalPage foldName data = (None, page) ->
     api.Results page = Some raw ->
     api.unmarshalList foldName T decodeElem data
     = json.UnmarshalSlice T decodeElem (json.Text raw)) /\
  (forall data,
     fst (api.UnmarshalPage foldName data) <> None \/
     api.Results (snd (api.UnmarshalPage foldName data)) = None ->
     api.unmarshalList foldName T decodeElem data
     = json.UnmarshalSlice T decodeElem data).
Proof.
  assert (Henv : forall V,
            api.unmarshalList foldName T decodeElem
              (json.Text (json.JObject
                 [("results", V); ("next_cursor", api.cursorValue cursor)]))
            = json.UnmarshalSlice T decodeElem (json.Text V))
    by (intros V; now destruct cursor).
  split; [|split; [|split; [|split; [|split; [|split]]]]].
  - apply Henv.
  - now destruct cursor.
  - reflexivity.
  - rewrite Henv. reflexivity.
  - intros xs Hxs. rewrite Henv. split.
    + cbn [json.UnmarshalSlice]. now rewrite Hxs.
    + unfold api.unmarshalList. cbn [api.UnmarshalPage json.kindName].
      cbn [json.UnmarshalSlice]. now rewrite Hxs.
  - intros data page raw Hpage Hraw. unfold api.unmarshalList.
    rewrite Hpage. destruct page as [results next]. cbn in Hraw.
    now rewrite Hraw.
  - intros data Hfail. unfold api.unmarshalList.
    destruct (api.UnmarshalPage foldName data) as [[e|] [[raw|] next]];
      cbn in Hfail; try reflexivity.
    destruct Hfail; congruence.
Qed.

(** An envelope whose "next_cursor" is neither a string nor null does
    not decode as a page; the fallback then meets an object where it
    wants an array. *)
Lemma unmarshalList_cursor_of_wrong_type (A : json.Value) (n : string) :
  api.unmarshalList foldName T decodeElem
    (json.Text (json.JObject
       [("results", A); ("next_cursor", json.JNumber n)]))
  = Err (UnmarshalTypeError "object" "slice").
Proof. reflexivity. Qed.

End UnmarshalList.

(** ** The comment fetches of the tasks command *)

Section Fanout.

Import cmd.

Variable foldName : string -> string.
Variable parseJSON : string -> json.Data.
Variable decodeComment : json.Value -> result api.Comment.

Local Abbreviation GetCommentsCtx :=
  (api.GetCommentsCtx foldName parseJSON decodeComment).
Local Abbreviation fetch := (cmd.fetch foldName parseJSON decodeComment).
Local Abbreviation step := (cmd.step foldName parseJSON decodeComment).
Local Abbreviation exec := (cmd.exec foldName parseJSON decodeComment).
Local Abbreviation firstFailure :=
  (cmd.firstFailure foldName parseJSON decodeComment).

(** A call whose first exchange fails returns an error, after that one
    exchange at most. *)
Lemma GetCommentsCtx_exchange_fails env :
  api.exchangeFails env 0 = true ->
  exists e,
    GetCommentsCtx env = Err e /\
    (api.attemptsMade (snd (api.requestCtx (api.forGET env))) <= 1)%nat.
Proof.
  unfold api.exchangeFails. intros Hfails.
  destruct (api.Do env 0) as [e|resp] eqn:Hdo; [|discriminate].
  unfold api.GetCommentsCtx, api.requestCtx.
  cbn [api.forGET api.marshalError seq api.attemptLoop].
  unfold api.iteration, api.attemptOnce.
  cbn [api.waitBeforeRetry Nat.ltb Nat.leb api.forGET api.newRequestError
       api.Do].
  destruct (api.newRequestError env) as [e'|].
  - eexists. split; [reflexivity|]. cbn. lia.
  - rewrite Hdo. eexists. split; [reflexivity|]. cbn. lia.
Qed.

Lemma fetch_result ctxDone env r :
  fetch ctxDone env = Some r -> r = GetCommentsCtx env.
Proof.
  unfold cmd.fetch.
  destruct (ctxDone && negb (api.exchangeFails env 0)); congruence.
Qed.

(** The fetch of a goroutine started with the context cancelled
    fails. *)
Lemma fetch_ctx_done env r :
  fetch true env = Some r ->
  exists e,
    GetCommentsCtx env = Err e /\ r = Err e /\
    (api.attemptsMade (snd (api.requestCtx (api.forGET env))) <= 1)%nat.
Proof.
  unfold cmd.fetch. cbn [andb].
  destruct (api.exchangeFails env 0) eqn:Hfails; cbn [negb]; [|discriminate].
  intros H. injection H as <-.
  destruct (GetCommentsCtx_exchange_fails env Hfails) as (e & He & Hn).
  exists e. now rewrite He.
Qed.

Lemma fetch_noNetwork ctxDone :
  fetch ctxDone api.noNetwork
  = Some (Err (NetworkError "request failed" Canceled)).
Proof. now destruct ctxDone. Qed.

Lemma takeRunning_found id : forall gs g others,
  takeRunning id gs = Some (g, others) ->
  api.Task_ID (fst g) = id /\
  (forall x, In x gs <-> x = g \/ In x others) /\
  List.length gs = S (List.length others).
Proof.
  induction gs as [|g0 gs IH]; intros g others; cbn [takeRunning];
    [discriminate|].
  destruct (String.eqb_spec (api.Task_ID (fst g0)) id) as [Hid | Hid].
  - intros H. injection H as <- <-. split; [exact Hid|].
    split; [|reflexivity]. intros x. cbn. intuition congruence.
  - destruct (takeRunning id gs) as [[found rest]|]; [|discriminate].
    intros H. injection H as <- <-.
    destruct (IH found rest eq_refl) as (Hfound & Hin & Hlen).
    split; [exact Hfound|]. split; [|cbn; now rewrite Hlen].
    intros x. cbn. rewrite Hin. intuition.
Qed.

Lemma takeRunning_head t flag rest :
  takeRunning (api.Task_ID t) ((t, flag) :: rest) = Some ((t, flag), rest).
Proof. cbn [takeRunning fst]. now rewrite String.eqb_refl. Qed.

Lemma step_groupErr st a st' :
  step st a = Some st' ->
  groupErr st'
  = match groupErr st with
    | Some first => Some first
    | None => firstFailure [a]
    end.
Proof.
  destruct a as [|id env]; cbn [cmd.step cmd.firstFailure].
  - destruct (pending st) as [|t rest]; [discriminate|].
    destruct (List.length (running st) <? limit)%nat; [|discriminate].
    intros H. inversion H. cbn. now destruct (groupErr st).
  - destruct (takeRunning id (running st)) as [[[t flag] others]|];
      [|discriminate].
    destruct (fetch flag env) as [r|] eqn:Hfetch; [|discriminate].
    rewrite <- (fetch_result _ _ _ Hfetch).
    destruct r as [comments|err]; intros H; inversion H; cbn;
      now destruct (groupErr st).
Qed.

Lemma step_ctxCancelled st a st' :
  step st a = Some st' ->
  ctxCancelled st'
  = match firstFailure [a] with
    | Some _ => true
    | None => ctxCancelled st
    end.
Proof.
  destruct a as [|id env]; cbn [cmd.step cmd.firstFailure].
  - destruct (pending st) as [|t rest]; [discriminate|].
    destruct (List.length (running st) <? limit)%nat; [|discriminate].
    intros H. now inversion H.
  - destruct (takeRunning id (running st)) as [[[t flag] others]|];
      [|discriminate].
    destruct (fetch flag env) as [r|] eqn:Hfetch; [|discriminate].
    rewrite <- (fetch_result _ _ _ Hfetch).
    destruct r as [comments|err]; intros H; now inversion H.
Qed.

Lemma step_limit st a st' :
  step st a = Some st' ->
  (List.length (running st) <= limit)%nat ->
  (List.length (running st') <= limit)%nat.
Proof.
  destruct a as [|id env]; cbn [cmd.step].
  - destruct (pending st) as [|t rest]; [discriminate|].
    destruct (List.length (running st) <? limit)%nat eqn:Hlt; [|discriminate].
    intros H _. inversion H. cbn. rewrite length_app. cbn.
    apply Nat.ltb_lt in Hlt. lia.
  - destruct (takeRunning id (running st)) as [[[t flag] others]|] eqn:Htake;
      [|discriminate].
    destruct (takeRunning_found _ _ _ _ Htake) as (_ & _ & Hlen).
    destruct (fetch flag env) as [[comments|err]|]; [| |discriminate];
      intros H Hle; inversion H; cbn; lia.
Qed.

Lemma firstFailure_cons a schedule :
  firstFailure (a :: schedule)
  = match firstFailure [a] with
    | Some err => Some err
    | None => firstFailure schedule
    end.
Proof.
  destruct a as [|id env]; cbn [cmd.firstFailure]; [reflexivity|].
  now destruct (GetCommentsCtx env).
Qed.

Lemma firstFailure_app before after :
  firstFailure (before ++ after)
  = match firstFailure before with
    | Some err => Some err
    | None => firstFailure after
    end.
Proof.
  induction before as [|a before IH]; [reflexivity|].
  cbn [app]. rewrite (firstFailure_cons a (before ++ after)),
    (firstFailure_cons a before), IH.
  now destruct (firstFailure [a]).
Qed.

(** What a schedule leaves in the group: the first error, a cancelled
    context once a goroutine has failed, and never more than [limit]
    goroutines running. *)
Lemma exec_group schedule : forall st st',
  exec st schedule = Some st' ->
  groupErr st'
  = match groupErr st with
    | Some first => Some first
    | None => firstFailure schedule
    end /\
  ctxCancelled st'
  = match firstFailure schedule with
    | Some _ => true
    | None => ctxCancelled st
    end /\
  ((List.length (running st) <= limit)%nat ->
   (List.length (running st') <= limit)%nat).
Proof.
  induction schedule as [|a schedule IH]; intros st st' Hexec.
  - inversion Hexec. subst. cbn. split; [now destruct (groupErr st')|].
    split; [reflexivity | auto].
  - cbn [cmd.exec] in Hexec. destruct (step st a) as [st1|] eqn:Hstep;
      [|discriminate].
    destruct (IH st1 st' Hexec) as (Herr & Hctx & Hlim).
    rewrite firstFailure_cons.
    rewrite Herr, Hctx, (step_groupErr st a st1 Hstep),
      (step_ctxCancelled st a st1 Hstep).
    split; [|split].
    + destruct (groupErr st); [reflexivity|].
      now destruct (firstFailure [a]).
    + destruct (firstFailure [a]); [|reflexivity].
      now destruct (firstFailure schedule).
    + intros Hle. apply Hlim. now apply (step_limit st a st1).
Qed.

Lemma exec_app before after st :
  exec st (before ++ after)
  = match exec st before with
    | Some mid => exec mid after
    | None => None
    end.
Proof.
  revert st. induction before as [|a before IH]; intros st; [reflexivity|].
  cbn [app cmd.exec]. now destruct (step st a).
Qed.

Lemma step_accounted st a st' t :
  step st a = Some st' -> firstFailure [a] = None ->
  accounted st t -> accounted st' t.
Proof.
  unfold accounted. destruct a as [|id env]; cbn [cmd.step cmd.firstFailure].
  - destruct (pending st) as [|t0 rest]; [discriminate|].
    destruct (List.length (running st) <? limit)%nat; [|discriminate].
    intros H _. inversion H. cbn. rewrite map_app. cbn [map fst].
    intros [[-> | Hin] | [Hin | Hmap]].
    + right. left. apply in_or_app. right. now left.
    + now left.
    + right. left. apply in_or_app. now left.
    + now right; right.
  - destruct (takeRunning id (running st)) as [[[t0 flag] others]|] eqn:Htake;
      [|discriminate].
    destruct (takeRunning_found _ _ _ _ Htake) as (_ & Hin & _).
    destruct (fetch flag env) as [r|] eqn:Hfetch; [|discriminate].
    rewrite <- (fetch_result _ _ _ Hfetch).
    destruct r as [comments|err]; [|discriminate].
    intros H _. inversion H. cbn.
    intros [Hp | [Hr | Hmap]].
    + now left.
    + apply in_map_iff in Hr as (g & Hg & Hgin).
      apply Hin in Hgin as [-> | Hgin].
      * cbn in Hg. subst t0. right. right. unfold lookupComments. cbn.
        now rewrite String.eqb_refl.
      * right. left. apply in_map_iff. now exists g.
    + right. right. unfold lookupComments in *. cbn.
      now destruct (String.eqb (api.Task_ID t0) (api.Task_ID t)).
Qed.

Lemma exec_accounted schedule : forall st st' t,
  exec st schedule = Some st' -> firstFailure schedule = None ->
  accounted st t -> accounted st' t.
Proof.
  induction schedule as [|a schedule IH]; intros st st' t Hexec Hnone Hacc.
  - inversion Hexec. now subst.
  - cbn [cmd.exec] in Hexec. destruct (step st a) as [st1|] eqn:Hstep;
      [|discriminate].
    rewrite firstFailure_cons in Hnone.
    destruct (firstFailure [a]) eqn:Ha; [discriminate|].
    apply (IH st1 st' t Hexec Hnone).
    now apply (step_accounted st a st1).
Qed.

(** No run gets stuck: the goroutines in flight can end, and with none
    in flight the loop can start the next one. *)
Lemma exec_drain gs : forall st,
  running st = gs ->
  exists st',
    exec st (drain gs) = Some st' /\
    running st' = [] /\ pending st' = pending st.
Proof.
  induction gs as [|[t flag] gs IH]; intros st Hrun.
  - exists st. auto.
  - cbn [drain map cmd.exec cmd.step fst]. rewrite Hrun.
    rewrite (takeRunning_head t flag gs), fetch_noNetwork.
    destruct (IH {| pending := pending st;
                    running := gs;
                    commentsMap := commentsMap st;
                    groupErr :=
                      match groupErr st with
                      | Some first => Some first
                      | None =>
                          Some (NetworkError "request failed" Canceled)
                      end;
                    ctxCancelled := true |} eq_refl)
      as (st' & Hexec & Hrun' & Hpend').
    exists st'. auto.
Qed.

Lemma exec_serve tasks : forall st,
  pending st = tasks -> running st = [] ->
  exists st', exec st (serve tasks) = Some st' /\ joined st' = true.
Proof.
  induction tasks as [|t tasks IH]; intros st Hpend Hrun.
  - exists st. unfold joined. now rewrite Hpend, Hrun.
  - cbn [serve flat_map app cmd.exec cmd.step]. rewrite Hpend, Hrun.
    cbn [List.length Nat.ltb Nat.leb limit app running].
    rewrite (takeRunning_head t (ctxCancelled st) []), fetch_noNetwork.
    apply IH; reflexivity.
Qed.

Lemma exec_can_finish st :
  exists after st', exec st after = Some st' /\ joined st' = true.
Proof.
  destruct (exec_drain (running st) st eq_refl)
    as (st1 & Hexec1 & Hrun1 & Hpend1).
  destruct (exec_serve (pending st1) st1 eq_refl Hrun1)
    as (st2 & Hexec2 & Hjoined).
  exists (drain (running st) ++ serve (pending st1))%list, st2.
  now rewrite exec_app, Hexec1.
Qed.

(** The entry the mapping has for an ID after a run without failure:
    the comments of the last fetch of the run for that ID. *)
Lemma exec_last_fetch id schedule : forall st st',
  exec st schedule = Some st' -> firstFailure schedule = None ->
  (exists before env after comments,
     schedule = (before ++ Done id env :: after)%list /\
     (forall env', ~ In (Done id env') after) /\
     GetCommentsCtx env = Ok comments /\
     lookupComments id (commentsMap st') = Some comments) \/
  ((forall env', ~ In (Done id env') schedule) /\
   lookupComments id (commentsMap st')
   = lookupComments id (commentsMap st)).
Proof.
  induction schedule as [|a schedule IH]; intros st st' Hexec Hnone.
  - inversion Hexec. subst. right. split; [intros env' []|reflexivity].
  - cbn [cmd.exec] in Hexec. destruct (step st a) as [st1|] eqn:Hstep;
      [|discriminate].
    rewrite firstFailure_cons in Hnone.
    destruct (firstFailure [a]) eqn:Ha; [discriminate|].
    destruct (IH st1 st' Hexec Hnone)
      as [(before & env & after & comments & -> & Hlast & Hget & Hmap)
         | [Hnot Hmap]].
    + left. exists (a :: before), env, after, comments. now repeat split.
    + destruct a as [|id' env]; cbn [cmd.step cmd.firstFailure] in Hstep, Ha.
      * right. split.
        -- intros env' [H | H]; [discriminate H | exact (Hnot env' H)].
        -- rewrite Hmap.
           destruct (pending st) as [|t rest]; [discriminate|].
           destruct (List.length (running st) <? limit)%nat; [|discriminate].
           now inversion Hstep.
      * destruct (takeRunning id' (running st)) as [[[t flag] others]|]
          eqn:Htake; [|discriminate].
        destruct (takeRunning_found _ _ _ _ Htake) as (Hid & _ & _).
        cbn [fst] in Hid.
        destruct (fetch flag env) as [r|] eqn:Hfetch; [|discriminate].
        pose proof (fetch_result _ _ _ Hfetch) as Hr. subst r.
        destruct (GetCommentsCtx env) as [comments|err] eqn:Hget;
          [|discriminate].
        inversion Hstep. subst st1. cbn [commentsMap] in Hmap.
        destruct (String.eqb_spec id' id) as [-> | Hne].
        -- left. exists [], env, schedule, comments.
           split; [reflexivity|]. split; [exact Hnot|].
           split; [exact Hget|]. rewrite Hmap.
           unfold lookupComments. cbn. now rewrite Hid, String.eqb_refl.
        -- right. split.
           ++ intros env' [H | H]; [congruence | exact (Hnot env' H)].
           ++ rewrite Hmap. unfold lookupComments. cbn. rewrite Hid.
              apply String.eqb_neq in Hne. now rewrite Hne.
Qed.

(** Once the context is cancelled, a task none of whose fetches is in
    flight gets no comments: what is started for it is started with the
    cancelled context, fails at its first exchange and stores nothing. *)
Lemma exec_ctx_cancelled id schedule : forall st st',
  exec st schedule = Some st' ->
  ctxCancelled st = true ->
  (forall g, In g (running st) -> api.Task_ID (fst g) = id -> snd g = true) ->
  (forall env, In (Done id env) schedule ->
     exists e,
       GetCommentsCtx env = Err e /\
       (api.attemptsMade (snd (api.requestCtx (api.forGET env))) <= 1)%nat) /\
  lookupComments id (commentsMap st') = lookupComments id (commentsMap st).
Proof.
  induction schedule as [|a schedule IH]; intros st st' Hexec Hctx Hflags.
  - inversion Hexec. subst. split; [intros env []|reflexivity].
  - cbn [cmd.exec] in Hexec. destruct (step st a) as [st1|] eqn:Hstep;
      [|discriminate].
    destruct a as [|id' env]; cbn [cmd.step] in Hstep.
    + destruct (pending st) as [|t rest]; [discriminate|].
      destruct (List.length (running st) <? limit)%nat; [|discriminate].
      inversion Hstep. subst st1. clear Hstep.
      destruct (IH _ st' Hexec) as (Hends & Hmap).
      * exact Hctx.
      * cbn [running]. intros g Hg Hid.
        apply in_app_or in Hg as [Hg | [<- | []]]; [now apply Hflags|].
        exact Hctx.
      * split; [|exact Hmap].
        intros env [H | H]; [discriminate H | exact (Hends env H)].
    + destruct (takeRunning id' (running st)) as [[[t flag] others]|]
        eqn:Htake; [|discriminate].
      destruct (takeRunning_found _ _ _ _ Htake) as (Hid & Hin & _).
      cbn [fst] in Hid.
      destruct (fetch flag env) as [r|] eqn:Hfetch; [|discriminate].
      assert (Hothers : forall g, In g others ->
                api.Task_ID (fst g) = id -> snd g = true).
      { intros g Hg. apply Hflags. apply Hin. now right. }
      destruct (String.eqb_spec id' id) as [-> | Hne].
      * assert (Hflag : flag = true).
        { apply (Hflags (t, flag)); [apply Hin; now left | exact Hid]. }
        subst flag.
        destruct (fetch_ctx_done env r Hfetch) as (e & Hget & -> & Hone).
        inversion Hstep. subst st1. clear Hstep.
        destruct (IH _ st' Hexec eq_refl Hothers) as (Hends & Hmap).
        split; [|exact Hmap].
        intros env' [H | H]; [|exact (Hends env' H)].
        injection H as <-. exists e. now split.
      * destruct r as [comments|err]; inversion Hstep; subst st1; clear Hstep.
        -- destruct (IH _ st' Hexec Hctx Hothers) as (Hends & Hmap).
           split.
           ++ intros env' [H | H]; [congruence | exact (Hends env' H)].
           ++ rewrite Hmap. unfold lookupComments. cbn. rewrite Hid.
              apply String.eqb_neq in Hne. now rewrite Hne.
        -- destruct (IH _ st' Hexec eq_refl Hothers) as (Hends & Hmap).
           split; [|exact Hmap].
           intros env' [H | H]; [congruence | exact (Hends env' H)].
Qed.

Variable FormatTaskLine : api.Task -> string.
Variable Wrap : string -> string -> string.

Local Abbreviation runTasks :=
  (cmd.runTasks foldName parseJSON decodeComment FormatTaskLine Wrap).



End Fanout.



(** ** The order of strings *)

Section StringOrder.

Lemma ltb_lt a b : String.ltb a b = true <-> String_as_OT.lt a b.
Proof.
  rewrite <- String_as_OT.cmp_lt. unfold String.ltb, String_as_OT.cmp.
  destruct (String.compare a b); split; congruence.
Qed.

Lemma ltb_irrefl a : String.ltb a a = false.
Proof.
  destruct (String.ltb a a) eqn:H; [|reflexivity].
  apply ltb_lt in H. apply String_as_OT.lt_not_eq in H. now elim H.
Qed.

Lemma ltb_trans a b c :
  String.ltb a b = true -> String.ltb b c = true -> String.ltb a c = true.
Proof.
  rewrite !ltb_lt. apply String_as_OT.lt_trans.
Qed.

Lemma ltb_asym a b : String.ltb a b = true -> String.ltb b a = false.
Proof.
  intros Hab. destruct (String.ltb b a) eqn:Hba; [|reflexivity].
  pose proof (ltb_trans a b a Hab Hba) as H. now rewrite ltb_irrefl in H.
Qed.

(** Two strings of which neither is before the other are the same. *)
Lemma ltb_connected a b :
  String.ltb a b = false -> String.ltb b a = false -> a = b.
Proof.
  unfold String.ltb. rewrite (String.compare_antisym b a).
  destruct (String.compare a b) eqn:Hc; cbn; try discriminate.
  intros _ _. now apply String.compare_eq_iff.
Qed.

Lemma leb_ltb a b : String.leb a b = negb (String.ltb b a).
Proof.
  unfold String.leb, String.ltb. rewrite (String.compare_antisym b a).
  now destruct (String.compare a b).
Qed.

Lemma leb_trans a b c :
  String.leb a b = true -> String.leb b c = true -> String.leb a c = true.
Proof.
  rewrite !leb_ltb, !negb_true_iff. intros Hba Hcb.
  destruct (String.ltb c a) eqn:Hca; [|reflexivity].
  destruct (String.ltb a b) eqn:Hab.
  - now rewrite (ltb_trans c a b Hca Hab) in Hcb.
  - rewrite (ltb_connected a b Hab Hba) in Hca. congruence.
Qed.

End StringOrder.

(** ** The URL of a request *)

Section RequestURL.

Import api.

Lemma string_app_assoc (s1 s2 s3 : string) :
  (s1 ++ s2) ++ s3 = s1 ++ s2 ++ s3.
Proof.
  induction s1 as [|c s1 IH]; [reflexivity|]. cbn. now rewrite IH.
Qed.

Lemma countByte_app c s1 s2 :
  countByte c (s1 ++ s2) = (countByte c s1 + countByte c s2)%nat.
Proof.
  induction s1 as [|c1 s1 IH]; [reflexivity|].
  cbn [append countByte]. rewrite IH. lia.
Qed.

(** What [QueryEscape] writes for one byte has none of the bytes that
    give a URL its structure. *)
Lemma escapeByte_safe x :
  countByte "&" (url.escapeByte x) = 0%nat /\
  countByte "=" (url.escapeByte x) = 0%nat /\
  countByte "?" (url.escapeByte x) = 0%nat /\
  countByte "#" (url.escapeByte x) = 0%nat /\
  countByte " " (url.escapeByte x) = 0%nat.
Proof.
  destruct x as [[] [] [] [] [] [] [] []]; vm_compute; auto.
Qed.

Lemma QueryEscape_safe s :
  countByte "&" (url.QueryEscape s) = 0%nat /\
  countByte "=" (url.QueryEscape s) = 0%nat /\
  countByte "?" (url.QueryEscape s) = 0%nat /\
  countByte "#" (url.QueryEscape s) = 0%nat /\
  countByte " " (url.QueryEscape s) = 0%nat.
Proof.
  induction s as [|x s IH]; [now cbn|].
  cbn [url.QueryEscape]. rewrite !countByte_app.
  destruct (escapeByte_safe x) as (-> & -> & -> & -> & ->). exact IH.
Qed.

Lemma insertByKey_perm kv sorted :
  Permutation (url.insertByKey kv sorted) (kv :: sorted).
Proof.
  induction sorted as [|kv' rest IH]; cbn; [auto|].
  destruct (String.leb (fst kv) (fst kv')); [auto|].
  rewrite IH. apply perm_swap.
Qed.

Lemma sortByKey_perm v : Permutation (url.sortByKey v) v.
Proof.
  induction v as [|kv rest IH]; cbn; [auto|].
  rewrite insertByKey_perm. now constructor.
Qed.

Lemma length_sortByKey v : List.length (url.sortByKey v) = List.length v.
Proof. apply Permutation_length, sortByKey_perm. Qed.

Lemma insertByKey_sorted kv sorted :
  StronglySorted url.keyLe sorted ->
  StronglySorted url.keyLe (url.insertByKey kv sorted).
Proof.
  induction 1 as [|kv' rest Hrest IH Hall]; cbn.
  - repeat constructor.
  - destruct (String.leb (fst kv) (fst kv')) eqn:Hle.
    + constructor; [now constructor|]. constructor; [exact Hle|].
      rewrite Forall_forall in *. intros x Hx.
      exact (leb_trans _ _ _ Hle (Hall x Hx)).
    + constructor; [exact IH|].
      rewrite Forall_forall in *. intros x Hx.
      apply (Permutation_in _ (insertByKey_perm kv rest)) in Hx.
      destruct Hx as [<- | Hx]; [|now apply Hall].
      unfold url.keyLe. rewrite leb_ltb in *. apply negb_false_iff in Hle.
      now rewrite (ltb_asym _ _ Hle).
Qed.

Lemma sortByKey_sorted v : StronglySorted url.keyLe (url.sortByKey v).
Proof.
  induction v as [|kv rest IH]; cbn; [constructor|].
  now apply insertByKey_sorted.
Qed.

(** Bindings with distinct keys have one ascending order only. *)
Lemma sorted_unique l1 : forall l2,
  StronglySorted url.keyLe l1 -> StronglySorted url.keyLe l2 ->
  Permutation l1 l2 -> NoDup (map fst l1) -> l1 = l2.
Proof.
  induction l1 as [|a l1 IH]; intros l2 Hs1 Hs2 Hperm Hnd.
  - now apply Permutation_nil in Hperm.
  - destruct l2 as [|b l2];
      [now apply Permutation_sym, Permutation_nil in Hperm|].
    apply StronglySorted_inv in Hs1 as [Hs1 Hall1].
    apply StronglySorted_inv in Hs2 as [Hs2 Hall2].
    rewrite Forall_forall in Hall1, Hall2.
    cbn in Hnd. apply NoDup_cons_iff in Hnd as [Hnotin Hnd].
    assert (Hab : a = b).
    { assert (Ha : In a (b :: l2))
        by (apply (Permutation_in _ Hperm); now left).
      assert (Hb : In b (a :: l1))
        by (apply (Permutation_in _ (Permutation_sym Hperm)); now left).
      destruct Ha as [-> | Ha]; [reflexivity|].
      destruct Hb as [-> | Hb]; [reflexivity|].
      exfalso. apply Hnotin.
      rewrite (String.leb_antisym _ _ (Hall1 b Hb) (Hall2 a Ha)).
      now apply in_map. }
    subst b. f_equal. apply IH; auto.
    now apply Permutation_cons_inv in Hperm.
Qed.

Lemma sortByKey_order_free v v' :
  Permutation v v' -> NoDup (map fst v) ->
  url.sortByKey v = url.sortByKey v'.
Proof.
  intros Hperm Hnd. apply sorted_unique.
  - apply sortByKey_sorted.
  - apply sortByKey_sorted.
  - now rewrite !sortByKey_perm.
  - apply (Permutation_NoDup (l := map fst v)); [|exact Hnd].
    apply Permutation_map, Permutation_sym, sortByKey_perm.
Qed.

Lemma queryValues_perm m m' :
  Permutation m m' -> Permutation (queryValues m) (queryValues m').
Proof.
  unfold queryValues. induction 1; cbn.
  - constructor.
  - destruct (negb (String.eqb (snd x) "")); auto.
  - destruct (negb (String.eqb (snd x) "")),
      (negb (String.eqb (snd y) "")); auto. apply perm_swap.
  - etransitivity; eauto.
Qed.

Lemma queryValues_NoDup m :
  NoDup (map fst m) -> NoDup (map fst (queryValues m)).
Proof.
  unfold queryValues. induction m as [|kv m IH]; cbn; intros Hnd; [exact Hnd|].
  apply NoDup_cons_iff in Hnd as [Hnotin Hnd].
  destruct (negb (String.eqb (snd kv) "")); cbn; [|auto].
  constructor; [|auto]. intros Hin. apply Hnotin.
  apply in_map_iff in Hin as (x & Hfst & Hx).
  apply filter_In in Hx as [Hx _]. rewrite <- Hfst. now apply in_map.
Qed.

(** The URL of a request does not depend on the order in which the
    [range] over the parameter map meets its keys. *)
Theorem requestURL_order_free method endpoint m m' :
  Permutation m m' -> NoDup (map fst m) ->
  requestURL method endpoint (Some m) = requestURL method endpoint (Some m').
Proof.
  intros Hperm Hnd. unfold requestURL.
  rewrite (Permutation_length (queryValues_perm m m' Hperm)).
  unfold url.Encode.
  now rewrite (sortByKey_order_free _ _ (queryValues_perm m m' Hperm)
                 (queryValues_NoDup m Hnd)).
Qed.

Lemma countByte_pairs c (pairs : list string) :
  Forall (fun p => countByte c p = 0%nat) pairs ->
  countByte c (String.concat "&" pairs)
  = if Ascii.eqb "&" c then (List.length pairs - 1)%nat else 0%nat.
Proof.
  induction 1 as [|p rest Hp _ IH]; [now destruct (Ascii.eqb "&" c)|].
  destruct rest as [|p' rest].
  - cbn [String.concat]. rewrite Hp.
    destruct (Ascii.eqb "&" c); reflexivity.
  - change (String.concat "&" (p :: p' :: rest))
      with (p ++ "&" ++ String.concat "&" (p' :: rest)).
    rewrite !countByte_app, Hp, IH. cbn [countByte List.length].
    destruct (Ascii.eqb "&" c); lia.
Qed.

Lemma countByte_equals (pairs : list (string * string)) :
  countByte "="
    (String.concat "&"
       (map (fun kv => url.QueryEscape (fst kv) ++ "="
                       ++ url.QueryEscape (snd kv)) pairs))
  = List.length pairs.
Proof.
  induction pairs as [|kv rest IH]; [reflexivity|].
  assert (Hone : countByte "="
                   (url.QueryEscape (fst kv) ++ "="
                    ++ url.QueryEscape (snd kv)) = 1%nat).
  { rewrite !countByte_app.
    destruct (QueryEscape_safe (fst kv)) as (_ & -> & _).
    destruct (QueryEscape_safe (snd kv)) as (_ & -> & _). reflexivity. }
  destruct rest as [|kv' rest].
  - cbn [map String.concat List.length]. exact Hone.
  - cbn [map] in *.
    change (String.concat "&" (?p :: ?p' :: ?r))
      with (p ++ "&" ++ String.concat "&" (p' :: r)).
    rewrite countByte_app, Hone, countByte_app, IH. cbn. lia.
Qed.

Lemma Substring_concat sep x (l : list string) :
  In x l -> strings.Substring x (String.concat sep l).
Proof.
  unfold strings.Substring.
  induction l as [|a l IH]; intros Hin; [destruct Hin|].
  destruct l as [|b l].
  - destruct Hin as [-> | []]. exists "", "". cbn. f_equal.
    induction x as [|c x IHx]; [reflexivity|]. cbn. now rewrite <- IHx.
  - change (String.concat sep (a :: b :: l))
      with (a ++ sep ++ String.concat sep (b :: l)).
    destruct Hin as [-> | Hin].
    + exists "", (sep ++ String.concat sep (b :: l)). reflexivity.
    + destruct (IH Hin) as (before & after & ->).
      exists (a ++ sep ++ before), after.
      now rewrite !string_app_assoc.
Qed.

Lemma queryValues_spec (params : list (string * string)) k v :
  In (k, v) (queryValues params) <-> In (k, v) params /\ v <> "".
Proof.
  unfold queryValues. rewrite filter_In. cbn [snd].
  rewrite negb_true_iff, String.eqb_neq. reflexivity.
Qed.

Lemma queryValues_length (params : list (string * string)) :
  (List.length (queryValues params)
   + List.length (filter (fun kv => String.eqb (snd kv) "") params)
   = List.length params)%nat.
Proof.
  unfold queryValues. induction params as [|kv params IH]; [reflexivity|].
  cbn [filter]. destruct (String.eqb (snd kv) ""); cbn [negb List.length];
    lia.
Qed.

(** A GET request sends no parameter whose value is empty, and no [?]
    when nothing is left to send.  What it sends is one [key=value]
    pair, escaped, for each parameter with a value: escaping leaves no
    [&], [=], [?], [#] or space inside a key or a value, so the query
    has one [=] for each pair and one [&] between two pairs. *)
Theorem requestURL_query endpoint (params : list (string * string)) :
  let n := List.length (queryValues params) in
  let q := url.Encode (queryValues params) in
  (n = 0%nat ->
   requestURL "GET" endpoint (Some params) = BaseURL ++ "/" ++ endpoint) /\
  ((0 < n)%nat ->
   requestURL "GET" endpoint (Some params)
   = BaseURL ++ "/" ++ endpoint ++ "?" ++ q) /\
  countByte "=" q = n /\
  countByte "&" q = (n - 1)%nat /\
  countByte "?" q = 0%nat /\ countByte "#" q = 0%nat /\
  countByte " " q = 0%nat /\
  (forall k v, In (k, v) (queryValues params) <-> In (k, v) params /\ v <> "") /\
  (n + List.length (filter (fun kv => String.eqb (snd kv) "") params)
   = List.length params)%nat /\
  ((forall k v, In (k, v) params -> v = "") ->
   requestURL "GET" endpoint (Some params) = BaseURL ++ "/" ++ endpoint) /\
  (forall k v, In (k, v) params -> v <> "" ->
     strings.Substring (url.QueryEscape k ++ "=" ++ url.QueryEscape v) q).
Proof.
  cbv zeta.
  assert (Hsafe : forall c,
            c = "&"%char \/ c = "?"%char \/ c = "#"%char \/ c = " "%char ->
            countByte c (url.Encode (queryValues params))
            = if Ascii.eqb "&" c
              then (List.length (queryValues params) - 1)%nat else 0%nat).
  { intros c Hc. unfold url.Encode. rewrite countByte_pairs.
    - now rewrite length_map, length_sortByKey.
    - apply Forall_forall. intros p Hp.
      apply in_map_iff in Hp as (kv & <- & _). rewrite !countByte_app.
      destruct (QueryEscape_safe (fst kv)) as (Ha & _ & Hq & Hh & Hs).
      destruct (QueryEscape_safe (snd kv)) as (Ha' & _ & Hq' & Hh' & Hs').
      destruct Hc as [-> | [-> | [-> | ->]]]; cbn;
        rewrite ?Ha, ?Ha', ?Hq, ?Hq', ?Hh, ?Hh', ?Hs, ?Hs'; reflexivity. }
  assert (Hnone : List.length (queryValues params) = 0%nat ->
            requestURL "GET" endpoint (Some params)
            = BaseURL ++ "/" ++ endpoint).
  { unfold requestURL. cbn [String.eqb Ascii.eqb Bool.eqb].
    intros ->. reflexivity. }
  split; [exact Hnone|].
  split; [|split; [|split; [|split; [|split; [|split; [|split;
    [|split; [|split]]]]]]]].
  - unfold requestURL. cbn [String.eqb Ascii.eqb Bool.eqb].
    intros Hpos. apply Nat.ltb_lt in Hpos. rewrite Hpos.
    now rewrite !string_app_assoc.
  - unfold url.Encode. now rewrite countByte_equals, length_sortByKey.
  - rewrite Hsafe by auto. reflexivity.
  - rewrite Hsafe by auto. reflexivity.
  - rewrite Hsafe by auto. reflexivity.
  - rewrite Hsafe by auto. reflexivity.
  - intros k v. apply queryValues_spec.
  - apply queryValues_length.
  - intros Hempty. apply Hnone.
    destruct (queryValues params) as [|[k v] rest] eqn:Hq; [reflexivity|].
    exfalso.
    assert (Hin : In (k, v) (queryValues params)) by (rewrite Hq; now left).
    apply queryValues_spec in Hin as [Hin Hne]. exact (Hne (Hempty k v Hin)).
  - intros k v Hin Hne. unfold url.Encode.
    apply Substring_concat.
    apply (in_map (fun kv => url.QueryEscape (fst kv) ++ "="
                             ++ url.QueryEscape (snd kv)) _ (k, v)).
    apply (Permutation_in _ (Permutation_sym (sortByKey_perm _))).
    now apply queryValues_spec.
Qed.

End RequestURL.

Lemma requestURL_order_free_witness :
  api.requestURL "GET" "tasks"
    (Some [("project_id", "12"); ("filter", "today | overdue")])
  = api.requestURL "GET" "tasks"
      (Some [("filter", "today | overdue"); ("project_id", "12")]).
Proof.
  refine (requestURL_order_free "GET" "tasks"
            [("project_id", "12"); ("filter", "today | overdue")]
            [("filter", "today | overdue"); ("project_id", "12")] _ _).
  - apply perm_swap.
  - cbn. repeat constructor; cbn; intuition discriminate.
Defined.

(** ** The cost of one call *)

Section Bounds.

Import api.

Variable env : Env.

Lemma iteration_events a lastErr :
  (attemptsMade (snd (iteration env a lastErr)) <= 1)%nat /\
  (List.length (waits (snd (iteration env a lastErr)))
   <= if (a =? 0)%nat then 0 else 1)%nat.
Proof.
  unfold iteration.
  assert (Hw : (attemptsMade (snd (waitBeforeRetry env a lastErr)) = 0 /\
                List.length (waits (snd (waitBeforeRetry env a lastErr)))
                <= if (a =? 0)%nat then 0 else 1)%nat).
  { unfold waitBeforeRetry. destruct a as [|a]; [cbn; lia|]. cbn [Nat.ltb Nat.leb].
    destruct lastErr as [[]|]; destruct (ctxDone env (S a)); cbn; lia. }
  assert (Ho : (attemptsMade (snd (attemptOnce env a)) <= 1 /\
                waits (snd (attemptOnce env a)) = [])%nat).
  { unfold attemptOnce. destruct (newRequestError env); [cbn; auto|].
    destruct (Do env a) as [e|resp]; [cbn; auto|].
    destruct (ReadAll resp); [|cbn; auto].
    destruct ((StatusCode resp =? 429) && (a <? maxRetries)%nat); cbn; auto. }
  destruct (waitBeforeRetry env a lastErr) as [[e|] evs]; cbn [snd] in *.
  - lia.
  - destruct (attemptOnce env a) as [s evs']. cbn [snd] in *.
    rewrite attemptsMade_app, waits_app, length_app.
    destruct Ho as [Ho ->]. cbn [List.length]. lia.
Qed.

Lemma attemptLoop_bounds n : forall a lastErr,
  (attemptsMade (snd (attemptLoop env (seq a n) lastErr)) <= n)%nat /\
  (List.length (waits (snd (attemptLoop env (seq a n) lastErr)))
   <= n - if (a =? 0)%nat then 1 else 0)%nat.
Proof.
  induction n as [|n IH]; intros a lastErr; [cbn; lia|].
  cbn [seq attemptLoop].
  pose proof (iteration_events a lastErr) as [Ha Hw].
  destruct (iteration env a lastErr) as [[lastErr'|r] evs]; cbn [snd] in *.
  - specialize (IH (S a) lastErr').
    destruct (attemptLoop env (seq (S a) n) lastErr') as [r evs'].
    cbn [snd Nat.eqb] in *.
    rewrite attemptsMade_app, waits_app, length_app.
    destruct (a =? 0)%nat; lia.
  - destruct (a =? 0)%nat; lia.
Qed.

(** Whatever the server, the network and the context do, one call makes
    at most four HTTP exchanges and waits at most three times; a call
    whose payload cannot be marshalled or whose request cannot be built
    makes none. *)
Theorem requestCtx_bounded :
  (attemptsMade (snd (requestCtx env)) <= S maxRetries)%nat /\
  (List.length (waits (snd (requestCtx env))) <= maxRetries)%nat /\
  (marshalError env <> None \/ newRequestError env <> None ->
   snd (requestCtx env) = []).
Proof.
  unfold requestCtx. split; [|split].
  - destruct (marshalError env); [cbn; lia|].
    apply (attemptLoop_bounds (S maxRetries) 0 None).
  - destruct (marshalError env); [cbn; lia|].
    apply (attemptLoop_bounds (S maxRetries) 0 None).
  - intros [Hm | Hn].
    + destruct (marshalError env); [reflexivity | contradiction].
    + destruct (marshalError env); [reflexivity|].
      cbn [seq attemptLoop iteration waitBeforeRetry Nat.ltb Nat.leb].
      unfold iteration, attemptOnce. cbn.
      destruct (newRequestError env); [reflexivity | contradiction].
Qed.

End Bounds.

(** ** Matching without regard to case *)

Section CaseInsensitive.

Lemma isASCII_app s1 s2 :
  strings.isASCII (s1 ++ s2) = strings.isASCII s1 && strings.isASCII s2.
Proof.
  unfold strings.isASCII.
  induction s1 as [|c s1 IH]; [reflexivity|].
  cbn [append list_ascii_of_string forallb]. now rewrite IH, andb_assoc.
Qed.

Lemma mapBytes_app f s1 s2 :
  strings.mapBytes f (s1 ++ s2)
  = strings.mapBytes f s1 ++ strings.mapBytes f s2.
Proof.
  induction s1 as [|c s1 IH]; [reflexivity|]. cbn. now rewrite IH.
Qed.

Variable mapUnicodeLower : string -> string.

(** On ASCII text a match with regard to case is a match without. *)
Lemma containsCI_verbatim s substr :
  strings.isASCII s = true -> strings.Substring substr s ->
  cmd.containsCI mapUnicodeLower s substr = true.
Proof.
  intros Hascii (before & after & ->).
  rewrite !isASCII_app in Hascii.
  apply andb_true_iff in Hascii as [Hb Hrest].
  apply andb_true_iff in Hrest as [Hs Ha].
  unfold cmd.containsCI. apply Contains_spec.
  exists (strings.mapBytes strings.lowerByte before),
    (strings.mapBytes strings.lowerByte after).
  unfold strings.ToLower.
  rewrite !isASCII_app, Hb, Hs, Ha. cbn [andb].
  now rewrite !mapBytes_app.
Qed.

Lemma searchLoop_filter query tasks : forall matches,
  cmd.searchLoop mapUnicodeLower query tasks matches
  = (matches ++ filter (cmd.searchMatches mapUnicodeLower query) tasks)%list.
Proof.
  induction tasks as [|t tasks IH]; intros matches; cbn.
  - now rewrite app_nil_r.
  - destruct (cmd.searchMatches mapUnicodeLower query t); rewrite IH.
    + now rewrite <- app_assoc.
    + reflexivity.
Qed.

(** The search command keeps, in listing order, exactly the tasks whose
    content or description contains the query without regard to case.
    The empty query keeps every task, and a task whose ASCII content
    holds the query as it was typed is always kept. *)
Theorem searchTasks_spec (arg : string) (tasks : list api.Task) :
  cmd.searchTasks mapUnicodeLower arg tasks
  = filter (cmd.searchMatches mapUnicodeLower
              (strings.ToLower mapUnicodeLower arg)) tasks /\
  (forall t,
     In t (cmd.searchTasks mapUnicodeLower arg tasks) <->
     In t tasks /\
     (strings.nameMatches mapUnicodeLower (api.Task_Content t) arg \/
      strings.nameMatches mapUnicodeLower (api.Task_Description t) arg)) /\
  cmd.searchTasks mapUnicodeLower "" tasks = tasks /\
  (forall t,
     In t tasks -> strings.isASCII (api.Task_Content t) = true ->
     strings.Substring arg (api.Task_Content t) ->
     In t (cmd.searchTasks mapUnicodeLower arg tasks)).
Proof.
  assert (Hfilter : forall a,
            cmd.searchTasks mapUnicodeLower a tasks
            = filter (cmd.searchMatches mapUnicodeLower
                        (strings.ToLower mapUnicodeLower a)) tasks)
    by (intros a; unfold cmd.searchTasks; now rewrite searchLoop_filter).
  split; [apply Hfilter|]. split; [|split].
  - intros t. rewrite Hfilter, filter_In. unfold cmd.searchMatches.
    rewrite orb_true_iff, !Contains_nameMatches. reflexivity.
  - rewrite Hfilter.
    rewrite (ToLower_empty mapUnicodeLower).
    induction tasks as [|t rest IH]; [reflexivity|].
    cbn [filter]. unfold cmd.searchMatches at 1.
    rewrite Contains_empty. cbn [orb]. f_equal. apply IH.
    intros a. unfold cmd.searchTasks. now rewrite searchLoop_filter.
  - intros t Hin Hascii Hsub. rewrite Hfilter. apply filter_In.
    split; [exact Hin|]. unfold cmd.searchMatches.
    apply orb_true_iff. left.
    exact (containsCI_verbatim _ _ Hascii Hsub).
Qed.

(** A project whose ASCII name holds the query as it was typed is
    enough for [FindProject] to find a project. *)
Theorem FindProject_verbatim (projects : list api.Project)
    (p : api.Project) (q : string) :
  In p projects -> strings.isASCII (api.Project_Name p) = true ->
  strings.Substring q (api.Project_Name p) ->
  exists found,
    api.FindProject mapUnicodeLower (Ok projects) q = Ok found /\
    In found projects /\
    strings.nameMatches mapUnicodeLower (api.Project_Name found) q.
Proof.
  intros Hin Hascii Hsub. unfold api.FindProject.
  assert (Hp : strings.Contains
                 (strings.ToLower mapUnicodeLower (api.Project_Name p))
                 (strings.ToLower mapUnicodeLower q) = true)
    by exact (containsCI_verbatim _ _ Hascii Hsub).
  induction projects as [|x rest IH]; [destruct Hin|].
  cbn [api.scanProjects].
  destruct (strings.Contains
              (strings.ToLower mapUnicodeLower (api.Project_Name x))
              (strings.ToLower mapUnicodeLower q)) eqn:Hx.
  - exists x. split; [reflexivity|]. split; [now left|].
    now apply Contains_nameMatches.
  - destruct Hin as [-> | Hin]; [congruence|].
    destruct (IH Hin) as (found & Hfound & Hfin & Hmatch).
    exists found. split; [exact Hfound|]. split; [now right | exact Hmatch].
Qed.

Lemma addSectionLoop_scan sections section :
  cmd.addSectionLoop mapUnicodeLower sections section ""
  = cmd.findSectionID mapUnicodeLower sections section.
Proof.
  unfold cmd.findSectionID.
  induction sections as [|s rest IH]; [reflexivity|].
  cbn [cmd.addSectionLoop cmd.scanSections]. unfold cmd.containsCI.
  now rewrite IH.
Qed.

(** The add command resolves [--section] to the same section as the
    move command does ([findSectionID]), but where the move command
    reports "section not found" the add command goes on without a
    section.  It does not look sections up at all without a section
    name or without a project. *)
Theorem addSectionID_spec (section projectID : string)
    (getSections : result (list api.Section_)) :
  (section = "" \/ projectID = "" ->
   cmd.addSectionID mapUnicodeLower section projectID getSections = Ok "") /\
  (section <> "" -> projectID <> "" ->
   (forall err, getSections = Err err ->
      cmd.addSectionID mapUnicodeLower section projectID getSections
      = Err err) /\
   (forall sections, getSections = Ok sections ->
      cmd.addSectionID mapUnicodeLower section projectID getSections
      = Ok (cmd.findSectionID mapUnicodeLower sections section) /\
      (cmd.moveSectionID mapUnicodeLower sections section
       = Err (ErrorString ("section not found: " ++ section)) ->
       cmd.addSectionID mapUnicodeLower section projectID getSections
       = Ok ""))).
Proof.
  unfold cmd.addSectionID. split.
  - intros [-> | ->]; [reflexivity|].
    now rewrite String.eqb_refl, andb_false_r.
  - intros Hs Hp. apply String.eqb_neq in Hs, Hp. rewrite Hs, Hp. cbn.
    split.
    + now intros err ->.
    + intros sections ->. rewrite addSectionLoop_scan.
      split; [reflexivity|]. unfold cmd.moveSectionID.
      destruct (String.eqb (cmd.findSectionID mapUnicodeLower sections section) "")
        eqn:Heq; [|discriminate].
      apply String.eqb_eq in Heq. now rewrite Heq.
Qed.

End CaseInsensitive.

Lemma FindProject_verbatim_witness :
  exists found,
    api.FindProject (fun s => s)
      (Ok [api.namedProject "1" "Work"; api.namedProject "2" "Homework"])
      "work" = Ok found /\
    In found [api.namedProject "1" "Work"; api.namedProject "2" "Homework"] /\
    strings.nameMatches (fun s => s) (api.Project_Name found) "work".
Proof.
  apply (FindProject_verbatim (fun s => s)
           [api.namedProject "1" "Work"; api.namedProject "2" "Homework"]
           (api.namedProject "2" "Homework") "work").
  - right. left. reflexivity.
  - reflexivity.
  - exists "Home", "". reflexivity.
Defined.

(** ** The order of the tasks command *)

Section SortOrder.

Lemma ltb_negtrans a b c :
  String.ltb a b = false -> String.ltb b c = false -> String.ltb a c = false.
Proof.
  intros Hab Hbc. destruct (String.ltb a c) eqn:Hac; [|reflexivity].
  destruct (String.ltb b a) eqn:Hba.
  - now rewrite (ltb_trans b a c Hba Hac) in Hbc.
  - rewrite (ltb_connected a b Hab Hba) in Hac. congruence.
Qed.

Ltac due_cases :=
  unfold cmd.dueLess;
  repeat match goal with
         | |- context [String.eqb ?a ?b] =>
             destruct (String.eqb_spec a b); subst
         end;
  try congruence; try lia.

Lemma dueLess_irrefl d c : cmd.dueLess d c d c = false.
Proof. unfold cmd.dueLess. rewrite String.eqb_refl. apply Z.ltb_irrefl. Qed.

Lemma dueLess_trans d1 c1 d2 c2 d3 c3 :
  cmd.dueLess d1 c1 d2 c2 = true -> cmd.dueLess d2 c2 d3 c3 = true ->
  cmd.dueLess d1 c1 d3 c3 = true.
Proof.
  due_cases; intros H12 H23;
    try (apply Z.ltb_lt in H12; apply Z.ltb_lt in H23; apply Z.ltb_lt; lia);
    try congruence.
  - now rewrite (ltb_asym _ _ H12) in H23.
  - exact (ltb_trans _ _ _ H12 H23).
Qed.

Lemma dueLess_negtrans d1 c1 d2 c2 d3 c3 :
  cmd.dueLess d1 c1 d2 c2 = false -> cmd.dueLess d2 c2 d3 c3 = false ->
  cmd.dueLess d1 c1 d3 c3 = false.
Proof.
  due_cases; intros H12 H23;
    try (apply Z.ltb_ge in H12; apply Z.ltb_ge in H23; apply Z.ltb_ge; lia);
    try congruence.
  - exfalso. apply n. exact (ltb_connected _ _ H12 H23).
  - exact (ltb_negtrans _ _ _ H12 H23).
Qed.

Variable mapUnicodeLower : string -> string.
Variable ChildOrder : api.Task -> Z.

Lemma sortLess_due t1 t2 :
  cmd.sortLess mapUnicodeLower ChildOrder "due" t1 t2
  = cmd.dueLess (cmd.taskDueDate t1) (ChildOrder t1)
      (cmd.taskDueDate t2) (ChildOrder t2).
Proof. reflexivity. Qed.

(** Whatever the field named by [--sort], the order [sortTasksBy] sorts
    by is a strict weak order: no task is before itself, the order is
    transitive, and so is being neither before nor after.  Sorted by
    due date, a task that has one comes before every task that has
    none. *)
Theorem sortLess_strict_weak_order (field : string) :
  (forall t, cmd.sortLess mapUnicodeLower ChildOrder field t t = false) /\
  (forall t1 t2 t3,
     cmd.sortLess mapUnicodeLower ChildOrder field t1 t2 = true ->
     cmd.sortLess mapUnicodeLower ChildOrder field t2 t3 = true ->
     cmd.sortLess mapUnicodeLower ChildOrder field t1 t3 = true) /\
  (forall t1 t2 t3,
     cmd.sortLess mapUnicodeLower ChildOrder field t1 t2 = false ->
     cmd.sortLess mapUnicodeLower ChildOrder field t2 t3 = false ->
     cmd.sortLess mapUnicodeLower ChildOrder field t1 t3 = false) /\
  (forall t1 t2,
     cmd.taskDueDate t1 <> "" -> cmd.taskDueDate t2 = "" ->
     cmd.sortLess mapUnicodeLower ChildOrder "due" t1 t2 = true /\
     cmd.sortLess mapUnicodeLower ChildOrder "due" t2 t1 = false).
Proof.
  split; [|split; [|split]].
  - intros t. unfold cmd.sortLess.
    destruct (String.eqb field "priority"); [apply Z.ltb_irrefl|].
    destruct (String.eqb field "due"); [apply dueLess_irrefl|].
    destruct (String.eqb field "name"); [apply ltb_irrefl|].
    destruct (String.eqb field "created"); [apply ltb_irrefl|].
    apply Z.ltb_irrefl.
  - intros t1 t2 t3. unfold cmd.sortLess.
    destruct (String.eqb field "priority");
      [rewrite !Z.ltb_lt; lia|].
    destruct (String.eqb field "due"); [apply dueLess_trans|].
    destruct (String.eqb field "name"); [apply ltb_trans|].
    destruct (String.eqb field "created"); [apply ltb_trans|].
    rewrite !Z.ltb_lt; lia.
  - intros t1 t2 t3. unfold cmd.sortLess.
    destruct (String.eqb field "priority");
      [rewrite !Z.ltb_ge; lia|].
    destruct (String.eqb field "due"); [apply dueLess_negtrans|].
    destruct (String.eqb field "name"); [apply ltb_negtrans|].
    destruct (String.eqb field "created"); [apply ltb_negtrans|].
    rewrite !Z.ltb_ge; lia.
  - intros t1 t2 H1 H2. rewrite !sortLess_due, H2. unfold cmd.dueLess.
    apply String.eqb_neq in H1. rewrite H1.
    rewrite String.eqb_sym in H1. now rewrite H1.
Qed.

End SortOrder.

(** ** The URL of the task listing *)

Section TaskListing.

Import api.

(** [GetTasks] asks for [tasks] alone when it has neither a project nor
    a filter, and otherwise for the ones it has, escaped, the filter
    before the project whichever was stored first. *)
Theorem GetTasks_url (projectID filter : string) :
  requestURL "GET" "tasks" (GetTasks_params projectID filter)
  = BaseURL ++ "/tasks"
    ++ match String.eqb filter "", String.eqb projectID "" with
       | true, true => ""
       | false, true => "?filter=" ++ url.QueryEscape filter
       | true, false => "?project_id=" ++ url.QueryEscape projectID
       | false, false =>
           "?filter=" ++ url.QueryEscape filter
           ++ "&project_id=" ++ url.QueryEscape projectID
       end.
Proof.
  unfold GetTasks_params, requestURL, queryValues, url.Encode.
  destruct (String.eqb filter "") eqn:Hf;
    destruct (String.eqb projectID "") eqn:Hp;
    cbn; rewrite ?Hf, ?Hp; cbn; reflexivity.
Qed.

End TaskListing.

(** ** Priorities outside 1 to 4, and priorities on display *)

Section PriorityDisplay.

Import api cmd.

Variables content description due : string.
Variable labels : list string.

(** The priority flag is not checked against 1 to 4.  A flag of 5, like
    a flag of 0 or below, sends no priority at all; a flag of 6 or more
    sends the negative number [5 - p]. *)
Theorem priority_flag_unchecked :
  (forall p, p <= 0 \/ p = 5 ->
     member "priority"
       (marshalAddTaskParams (addParams content description due labels p))
     = None /\
     member "priority"
       (marshalUpdateTaskParams
          (updateParams content description due labels p))
     = None) /\
  (forall p, 6 <= p < 2 ^ 63 ->
     5 - p < 0 /\
     member "priority"
       (marshalAddTaskParams (addParams content description due labels p))
     = Some (json.JNumber (itoa (5 - p))) /\
     member "priority"
       (marshalUpdateTaskParams
          (updateParams content description due labels p))
     = Some (json.JNumber (itoa (5 - p)))).
Proof.
  split.
  - intros p Hp. rewrite member_priority_add, member_priority_update.
    cbn [addParams updateParams Add_Priority Upd_Priority].
    destruct Hp as [Hp | ->]; [|split; reflexivity].
    assert (H : (0 <? p) = false) by (apply Z.ltb_ge; lia).
    rewrite H. split; reflexivity.
  - intros p Hp. rewrite member_priority_add, member_priority_update.
    cbn [addParams updateParams Add_Priority Upd_Priority].
    assert (H : (0 <? p) = true) by (apply Z.ltb_lt; lia).
    rewrite H, wrap64_small by lia.
    assert (H0 : (5 - p =? 0) = false) by (apply Z.eqb_neq; lia).
    rewrite H0. split; [lia|]. split; reflexivity.
Qed.

(** A task added with the flag [p] is listed with the mark [p1], [p2] or
    [p3] and viewed with the line [Priority: p1], [p2] or [p3] for [p]
    from 1 to 3; added with the flag 4, or with none, it has neither
    mark nor line. *)
Theorem priority_shown_as_given :
  (forall p, 1 <= p <= 3 ->
     let sent := Add_Priority (addParams content description due labels p) in
     output.priorityString sent = "p" ++ itoa p /\
     viewPriorityLine sent = ["Priority: p" ++ itoa p ++ newline]) /\
  (forall p, p = 4 \/ p = 0 ->
     let sent := Add_Priority (addParams content description due labels p) in
     output.priorityString sent = "" /\ viewPriorityLine sent = []).
Proof.
  split.
  - intros p Hp.
    assert (H : p = 1 \/ p = 2 \/ p = 3) by lia.
    destruct H as [-> | [-> | ->]]; split; reflexivity.
  - intros p [-> | ->]; split; reflexivity.
Qed.

End PriorityDisplay.

(** ** Labels on display *)

Section Labels.

Lemma joinLabels_fold rest : forall pre first,
  fold_left (fun result l => result ++ " @" ++ l) rest (pre ++ first)
  = pre ++ String.concat " @" (first :: rest).
Proof.
  induction rest as [|l rest IH]; intros pre first; [reflexivity|].
  cbn [fold_left].
  change (String.concat " @" (first :: l :: rest))
    with (first ++ " @" ++ String.concat " @" (l :: rest)).
  rewrite <- (string_app_assoc (pre ++ first) " @" l).
  rewrite IH.
  now rewrite !string_app_assoc.
Qed.

(** The loop of [joinLabels] builds what [strings.Join] builds with the
    separator [" @"]: the view command and the task listing show the
    labels of a task alike. *)
Theorem joinLabels_Join (labels : list string) :
  cmd.joinLabels labels = output.Join labels " @".
Proof.
  destruct labels as [|first rest]; [reflexivity|].
  exact (joinLabels_fold rest "" first).
Qed.

End Labels.

(** ** Completed tasks on display *)

Section CompletedTasks.

Variable Wrap : string -> string -> string.
Variables ANSIGray ANSIStrike : string.

Lemma writeCompletedItems_all items :
  forallb output.datedItem items = true ->
  output.writeCompletedItems Wrap ANSIGray ANSIStrike items
  = (map (fun t =>
            output.completedLine Wrap ANSIGray ANSIStrike
              (String.substring 0 10 (api.Completed_CompletedAt t)) t)
       items,
     output.Returned None).
Proof.
  induction items as [|t rest IH]; [reflexivity|].
  cbn [forallb]. intros H. apply andb_true_iff in H as [Ht Hrest].
  cbn [output.writeCompletedItems map]. unfold output.sliceTo.
  unfold output.datedItem in Ht. rewrite Ht, (IH Hrest). reflexivity.
Qed.

Lemma writeCompletedItems_short items :
  forallb output.datedItem items = false ->
  snd (output.writeCompletedItems Wrap ANSIGray ANSIStrike items)
  = output.Panicked.
Proof.
  induction items as [|t rest IH]; [discriminate|].
  cbn [forallb output.writeCompletedItems]. unfold output.sliceTo.
  fold (output.datedItem t). destruct (output.datedItem t); cbn [andb].
  - intros H.
    destruct (output.writeCompletedItems Wrap ANSIGray ANSIStrike rest)
      as [out e].
    exact (IH H).
  - reflexivity.
Qed.

(** [WriteCompletedTasks] panics exactly when the [CompletedAt] of some
    item has fewer than 10 bytes.  When every item has 10 or more, it
    returns without error after one line for each item, in order, that
    shows the first 10 bytes of its [CompletedAt]. *)
Theorem WriteCompletedTasks_short_date (items : list api.CompletedTask) :
  (snd (output.WriteCompletedTasks Wrap ANSIGray ANSIStrike items)
   = output.Panicked <->
   exists t, In t items /\
     (String.length (api.Completed_CompletedAt t) < 10)%nat) /\
  ((forall t, In t items ->
      (10 <= String.length (api.Completed_CompletedAt t))%nat) ->
   items <> [] ->
   output.WriteCompletedTasks Wrap ANSIGray ANSIStrike items
   = (map (fun t =>
             output.completedLine Wrap ANSIGray ANSIStrike
               (String.substring 0 10 (api.Completed_CompletedAt t)) t)
        items,
      output.Returned None)).
Proof.
  assert (Hsame : snd (output.WriteCompletedTasks Wrap ANSIGray ANSIStrike
                         items)
                  = snd (output.writeCompletedItems Wrap ANSIGray ANSIStrike
                           items))
    by (destruct items; reflexivity).
  assert (Hall : forallb output.datedItem items = true <->
                 forall t, In t items ->
                   (10 <= String.length (api.Completed_CompletedAt t))%nat).
  { rewrite forallb_forall. unfold output.datedItem.
    split; intros H t Ht; specialize (H t Ht).
    - now apply Nat.leb_le.
    - now apply Nat.leb_le. }
  split.
  - rewrite Hsame. split.
    + intros Hpanic.
      destruct (forallb output.datedItem items) eqn:Hd.
      * rewrite (writeCompletedItems_all items Hd) in Hpanic. discriminate.
      * clear Hall Hsame Hpanic.
        induction items as [|t rest IH]; [discriminate|].
        cbn [forallb] in Hd. apply andb_false_iff in Hd as [Ht | Hrest].
        -- exists t. split; [now left|].
           unfold output.datedItem in Ht. now apply Nat.leb_gt.
        -- destruct (IH Hrest) as (t' & Hin & Hlen).
           exists t'. split; [now right | exact Hlen].
    + intros (t & Hin & Hlen).
      apply writeCompletedItems_short.
      destruct (forallb output.datedItem items) eqn:Hd; [|reflexivity].
      pose proof (proj1 Hall eq_refl t Hin). lia.
  - intros Hlong Hne. apply Hall in Hlong.
    destruct items as [|t rest]; [congruence|].
    exact (writeCompletedItems_all (t :: rest) Hlong).
Qed.

End CompletedTasks.

(** ** The configuration *)

Section Configuration.

Variable foldName : string -> string.
Variable toValidUTF8 : string -> string.

Lemma decodeMembers_saved members : forall cfg e,
  snd (config.decodeMembers foldName members cfg (Some e)) = Some e.
Proof.
  induction members as [|[key v] rest IH]; intros cfg e; [reflexivity|].
  cbn [config.decodeMembers].
  destruct (config.isAPITokenKey foldName key); [|apply IH].
  destruct v; apply IH.
Qed.

(** [Load] never hands out an empty token, and a token in the
    environment is the one it hands out, whatever the config file holds
    and even when the file is missing, unreadable or not JSON. *)
Theorem Load_token (w : config.World) :
  (forall cfg, config.Load foldName w = Ok cfg ->
     config.APIToken cfg <> "") /\
  (config.TODOIST_API_TOKEN w <> "" ->
   config.Load foldName w
   = Ok {| config.APIToken := config.TODOIST_API_TOKEN w |}) /\
  (forall token, config.GetToken foldName w = Ok token -> token <> "").
Proof.
  assert (Hload : forall cfg, config.Load foldName w = Ok cfg ->
                    config.APIToken cfg <> "").
  { intros cfg. unfold config.Load.
    destruct (String.eqb_spec (config.TODOIST_API_TOKEN w) "") as [He | Hne];
      cbn [negb].
    - destruct (config.configFile w) as [| err | data]; try discriminate.
      destruct (config.Unmarshal foldName data) as [[err|] cfg'];
        [discriminate|].
      destruct (String.eqb_spec (config.APIToken cfg') "") as [|Hne];
        [discriminate|].
      intros H. injection H as <-. exact Hne.
    - intros H. injection H as <-. exact Hne. }
  split; [exact Hload|]. split.
  - intros Hne. unfold config.Load.
    apply String.eqb_neq in Hne. now rewrite Hne.
  - intros token. unfold config.GetToken.
    destruct (config.Load foldName w) as [cfg|err] eqn:Hl; [|discriminate].
    intros H. injection H as <-. exact (Hload cfg eq_refl).
Qed.

(** With no token in the environment, [Load] after a [Save] that
    succeeded gives the saved token back, as [encoding/json] writes it,
    and refuses a saved token that is empty. *)
Theorem Save_Load (w w' : config.World) (mkdirAllError writeFileError :
    option error) (cfg : config.Config) :
  config.TODOIST_API_TOKEN w = "" ->
  config.Save toValidUTF8 w mkdirAllError writeFileError cfg = Ok w' ->
  config.Load foldName w'
  = if String.eqb (toValidUTF8 (config.APIToken cfg)) ""
    then Err (ErrorString "no API token configured. Run 'todoist auth'")
    else Ok {| config.APIToken := toValidUTF8 (config.APIToken cfg) |}.
Proof.
  intros Henv. unfold config.Save.
  destruct mkdirAllError; [discriminate|].
  destruct writeFileError; [discriminate|].
  intros H. injection H as <-.
  unfold config.Load. cbn [config.TODOIST_API_TOKEN config.configFile].
  rewrite Henv. cbn [String.eqb negb].
  unfold config.MarshalIndent, config.Unmarshal.
  cbn [config.decodeMembers]. unfold config.isAPITokenKey.
  rewrite String.eqb_refl. cbn [orb config.APIToken]. reflexivity.
Qed.

End Configuration.

Lemma Save_Load_witness :
  config.Load (fun s => s)
    {| config.TODOIST_API_TOKEN := "";
       config.configFile :=
         config.Content
           (config.MarshalIndent (fun s => s)
              {| config.APIToken := "0123abcd" |}) |}
  = Ok {| config.APIToken := "0123abcd" |}.
Proof.
  apply (Save_Load (fun s => s) (fun s => s)
           {| config.TODOIST_API_TOKEN := "";
              config.configFile := config.NotExist |}
           _ None None {| config.APIToken := "0123abcd" |});
    reflexivity.
Defined.

(** ** The delete command *)

Section DeleteConfirmation.

Lemma trimLeft_spaces ws s :
  strings.allSpace ws = true -> strings.trimLeft (ws ++ s) = strings.trimLeft s.
Proof.
  unfold strings.allSpace.
  induction ws as [|c ws IH]; [reflexivity|].
  cbn [list_ascii_of_string forallb append strings.trimLeft].
  intros H. apply andb_true_iff in H as [Hc Hws]. rewrite Hc. exact (IH Hws).
Qed.

Lemma trimRight_spaces ws :
  strings.allSpace ws = true -> strings.trimRight ws = "".
Proof.
  unfold strings.allSpace.
  induction ws as [|c ws IH]; [reflexivity|].
  cbn [list_ascii_of_string forallb strings.trimRight].
  intros H. apply andb_true_iff in H as [Hc Hws]. now rewrite (IH Hws), Hc.
Qed.

(** What [trimLeft] removes is white space. *)
Lemma trimLeft_split s :
  exists ws, strings.allSpace ws = true /\ s = ws ++ strings.trimLeft s.
Proof.
  induction s as [|c s (ws & Hws & Hs)]; [now exists ""|].
  cbn [strings.trimLeft]. destruct (strings.asciiSpace c) eqn:Hc.
  - exists (String c ws). split.
    + unfold strings.allSpace in *. cbn [list_ascii_of_string forallb].
      now rewrite Hc, Hws.
    + cbn [append]. now rewrite <- Hs.
  - now exists "".
Qed.

(** What [trimRight] removes is white space. *)
Lemma trimRight_split s :
  exists ws, strings.allSpace ws = true /\ s = strings.trimRight s ++ ws.
Proof.
  induction s as [|c s (ws & Hws & Hs)]; [now exists ""|].
  cbn [strings.trimRight].
  destruct (strings.trimRight s) as [|c' t] eqn:Ht.
  - cbn [append] in Hs. subst s.
    destruct (strings.asciiSpace c) eqn:Hc.
    + exists (String c ws). split; [|reflexivity].
      unfold strings.allSpace in *. cbn [list_ascii_of_string forallb].
      now rewrite Hc, Hws.
    + exists ws. now split.
  - exists ws. split; [exact Hws|]. cbn [append] in *. congruence.
Qed.

Lemma lowerByte_y c :
  strings.lowerByte c = "y"%char -> c = "y"%char \/ c = "Y"%char.
Proof.
  destruct c as [[] [] [] [] [] [] [] []]; vm_compute; intros H;
    first [discriminate H | now left | now right].
Qed.

Lemma isASCII_trimLeft s :
  strings.isASCII s = true -> strings.isASCII (strings.trimLeft s) = true.
Proof.
  unfold strings.isASCII.
  induction s as [|c s IH]; [reflexivity|].
  cbn [strings.trimLeft]. destruct (strings.asciiSpace c); [|trivial].
  cbn [list_ascii_of_string forallb]. intros H.
  apply andb_true_iff in H as [_ H]. exact (IH H).
Qed.

Lemma isASCII_trimRight s :
  strings.isASCII s = true -> strings.isASCII (strings.trimRight s) = true.
Proof.
  unfold strings.isASCII.
  induction s as [|c s IH]; [reflexivity|].
  cbn [list_ascii_of_string forallb strings.trimRight]. intros H.
  apply andb_true_iff in H as [Hc H]. specialize (IH H).
  destruct (strings.trimRight s) as [|c' t].
  - destruct (strings.asciiSpace c); [reflexivity|].
    cbn [list_ascii_of_string forallb]. now rewrite Hc.
  - cbn [list_ascii_of_string forallb] in *. now rewrite Hc, IH.
Qed.

Variable mapUnicodeLower : string -> string.
Variable trimUnicodeSpace : string -> string.

(** The answers of ASCII bytes that are a yes: one [y] or [Y] with
    white space around it. *)
Lemma confirmed_ascii input :
  strings.isASCII input = true ->
  (cmd.confirmed mapUnicodeLower trimUnicodeSpace input = true <->
   exists before c after,
     input = before ++ String c after /\
     strings.allSpace before = true /\ strings.allSpace after = true /\
     (c = "y"%char \/ c = "Y"%char)).
Proof.
  intros Hascii. unfold cmd.confirmed, strings.TrimSpace.
  rewrite Hascii. unfold strings.ToLower.
  rewrite (isASCII_trimRight _ (isASCII_trimLeft _ Hascii)).
  split.
  - intros H. apply String.eqb_eq in H.
    destruct (trimLeft_split input) as (before & Hbefore & Hin).
    destruct (trimRight_split (strings.trimLeft input))
      as (after & Hafter & Hleft).
    destruct (strings.trimRight (strings.trimLeft input)) as [|c [|c' t]];
      try discriminate H.
    cbn [strings.mapBytes] in H. injection H as Hc.
    exists before, c, after. split; [|split; [exact Hbefore|split]].
    + rewrite Hin at 1. now rewrite Hleft at 1.
    + exact Hafter.
    + exact (lowerByte_y c Hc).
  - intros (before & c & after & -> & Hbefore & Hafter & Hc).
    rewrite (trimLeft_spaces _ _ Hbefore).
    assert (Hsp : strings.asciiSpace c = false)
      by (destruct Hc as [-> | ->]; reflexivity).
    cbn [strings.trimLeft]. rewrite Hsp.
    cbn [strings.trimRight]. rewrite (trimRight_spaces _ Hafter), Hsp.
    destruct Hc as [-> | ->]; reflexivity.
Qed.

(** The delete command calls [DeleteTask] at most once, for the task it
    was given, and only when [GetTask] has found the task and the call
    was forced, or made with [--json], or the answer was a yes; an
    answer of ASCII bytes is a yes when it is one [y] or [Y] with white
    space around it, and nothing else. *)
Theorem runDelete_confirmed (force asJSON : bool) (taskID : string)
    (getTask : result api.Task) (input : string)
    (deleteTask : option error) :
  let events :=
    fst (cmd.runDelete mapUnicodeLower trimUnicodeSpace force asJSON taskID
           getTask input deleteTask) in
  (cmd.deletions events = [taskID] \/ cmd.deletions events = []) /\
  (cmd.deletions events = [taskID] <->
   (exists task, getTask = Ok task) /\
   (force = true \/ asJSON = true \/
    cmd.confirmed mapUnicodeLower trimUnicodeSpace input = true)) /\
  (strings.isASCII input = true ->
   (cmd.confirmed mapUnicodeLower trimUnicodeSpace input = true <->
    exists before c after,
      input = before ++ String c after /\
      strings.allSpace before = true /\ strings.allSpace after = true /\
      (c = "y"%char \/ c = "Y"%char))).
Proof.
  cbv zeta. split; [|split; [|apply confirmed_ascii]].
  - unfold cmd.runDelete. destruct getTask as [task|err]; [|now right].
    destruct force, asJSON,
      (cmd.confirmed mapUnicodeLower trimUnicodeSpace input), deleteTask;
      cbn; auto.
  - unfold cmd.runDelete. destruct getTask as [task|err].
    + destruct force, asJSON,
        (cmd.confirmed mapUnicodeLower trimUnicodeSpace input), deleteTask;
        cbn; split; intros H;
        try discriminate H; try reflexivity;
        try (split; [now exists task | auto]);
        try (destruct H as (_ & [H | [H | H]]); discriminate H).
    + cbn. split; [discriminate|]. intros ((task & H) & _). discriminate H.
Qed.

End DeleteConfirmation.

(** ** The move command *)

Section MoveCommand.

Variable mapUnicodeLower : string -> string.

(** When the move command gets as far as [MoveTask], a named section
    is the only target it sends: the section is looked up among the
    sections of the project the task is in, and a project named beside
    it is resolved but not sent.  Without a section the project found
    is the target. *)
Theorem moveArgs_section_first (taskID section project : string)
    (getTask : result api.Task)
    (getSections : string -> result (list api.Section_))
    (getProjects : result (list api.Project))
    (args : list (string * string)) :
  cmd.moveArgs mapUnicodeLower taskID section project getTask getSections
    getProjects = Ok args ->
  (section <> "" ->
   exists task sections,
     getTask = Ok task /\
     getSections (api.Task_ProjectID task) = Ok sections /\
     cmd.findSectionID mapUnicodeLower sections section <> "" /\
     args = [("id", taskID);
             ("section_id",
              cmd.findSectionID mapUnicodeLower sections section)]) /\
  (section = "" ->
   exists p,
     api.FindProject mapUnicodeLower getProjects project = Ok p /\
     args = ("id", taskID)
            :: (if String.eqb (api.Project_ID p) "" then []
                else [("project_id", api.Project_ID p)])) /\
  (project <> "" ->
   exists p, api.FindProject mapUnicodeLower getProjects project = Ok p).
Proof.
  unfold cmd.moveArgs.
  destruct (String.eqb_spec section "") as [Hs | Hs];
    destruct (String.eqb_spec project "") as [Hp | Hp];
    cbn [andb]; try discriminate.
  - destruct (api.FindProject mapUnicodeLower getProjects project)
      as [p|err] eqn:Hfind; [|discriminate].
    intros H. injection H as <-.
    split; [contradiction|]. split; [|intros _; now exists p].
    intros _. exists p. split; [reflexivity|].
    unfold api.MoveTask_args. cbn [String.eqb negb].
    now destruct (String.eqb (api.Project_ID p) "").
  - destruct getTask as [task|err]; [|discriminate].
    destruct (getSections (api.Task_ProjectID task)) as [sections|err]
      eqn:Hsec; [|discriminate].
    unfold cmd.moveSectionID.
    destruct (String.eqb_spec
                (cmd.findSectionID mapUnicodeLower sections section) "")
      as [He | Hne]; [discriminate|].
    intros H. injection H as <-.
    split; [|split; [contradiction | intros Hp'; contradiction]].
    intros _. exists task, sections.
    split; [reflexivity|]. split; [exact Hsec|]. split; [exact Hne|].
    unfold api.MoveTask_args. apply String.eqb_neq in Hne. now rewrite Hne.
  - destruct getTask as [task|err]; [|discriminate].
    destruct (getSections (api.Task_ProjectID task)) as [sections|err]
      eqn:Hsec; [|discriminate].
    unfold cmd.moveSectionID.
    destruct (String.eqb_spec
                (cmd.findSectionID mapUnicodeLower sections section) "")
      as [He | Hne]; [discriminate|].
    destruct (api.FindProject mapUnicodeLower getProjects project)
      as [p|err] eqn:Hfind; [|discriminate].
    intros H. injection H as <-.
    split; [|split; [contradiction | intros _; now exists p]].
    intros _. exists task, sections.
    split; [reflexivity|]. split; [exact Hsec|]. split; [exact Hne|].
    unfold api.MoveTask_args. apply String.eqb_neq in Hne. now rewrite Hne.
Qed.

End MoveCommand.

Lemma moveArgs_section_first_witness :
  exists task sections,
    Ok (api.taskWithID "7") = Ok task /\
    (fun _ : string =>
       Ok [{| api.Section_ID := "s1"; api.Section_ProjectID := "p1";
              api.Section_Order := 1; api.Section_Name := "To do" |};
           {| api.Section_ID := "s2"; api.Section_ProjectID := "p1";
              api.Section_Order := 2; api.Section_Name := "Done" |}])
      (api.Task_ProjectID task) = Ok sections /\
    cmd.findSectionID (fun s => s) sections "done" <> "" /\
    [("id", "7"); ("section_id", "s2")]
    = [("id", "7");
       ("section_id", cmd.findSectionID (fun s => s) sections "done")].
Proof.
  refine (proj1
            (moveArgs_section_first (fun s => s) "7" "done" "Work"
               (Ok (api.taskWithID "7"))
               (fun _ =>
                  Ok [{| api.Section_ID := "s1"; api.Section_ProjectID := "p1";
                         api.Section_Order := 1;
                         api.Section_Name := "To do" |};
                      {| api.Section_ID := "s2"; api.Section_ProjectID := "p1";
                         api.Section_Order := 2;
                         api.Section_Name := "Done" |}])
               (Ok [api.namedProject "p9" "Work"])
               [("id", "7"); ("section_id", "s2")] _) _).
  - reflexivity.
  - discriminate.
Defined.

(** ** The auth command *)

Section AuthCommand.

Variable foldName : string -> string.
Variable trimUnicodeSpace : string -> string.
Variable toValidUTF8 : string -> string.

(** The replacement of invalid bytes leaves no string empty that was
    not. *)
Hypothesis toValidUTF8_nonempty :
  forall s, s <> "" -> toValidUTF8 s <> "".

(** After an auth command that succeeded, and with no token in the
    environment, [Load] succeeds and gives the token of the command:
    the first argument exactly as it was typed, white space included,
    or without an argument the line read with the white space around
    it removed.  That token is not empty and [GetProjects] accepted
    it. *)
Theorem runAuth_then_Load (args : list string) (readString : result string)
    (getProjects : string -> option error) (w w' : config.World)
    (mkdirAllError writeFileError : option error) :
  config.TODOIST_API_TOKEN w = "" ->
  cmd.runAuth trimUnicodeSpace toValidUTF8 args readString getProjects w
    mkdirAllError writeFileError = Ok w' ->
  exists token,
    match args with
    | arg :: _ => token = arg
    | [] =>
        exists input,
          readString = Ok input /\
          token = strings.TrimSpace trimUnicodeSpace input
    end /\
    cmd.authToken trimUnicodeSpace args readString = Ok token /\
    token <> "" /\
    getProjects token = None /\
    config.Load foldName w'
    = Ok {| config.APIToken := toValidUTF8 token |}.
Proof.
  intros Henv. unfold cmd.runAuth.
  destruct (cmd.authToken trimUnicodeSpace args readString)
    as [token|err] eqn:Htoken; [|discriminate].
  destruct (String.eqb_spec token "") as [|Hne]; [discriminate|].
  destruct (getProjects token) as [err|] eqn:Hget; [discriminate|].
  unfold config.Save.
  destruct mkdirAllError; [discriminate|].
  destruct writeFileError; [discriminate|].
  intros H. injection H as <-.
  exists token. split; [|split; [reflexivity|]].
  { unfold cmd.authToken in Htoken. destruct args as [|arg rest].
    - destruct readString as [input|err]; [|discriminate].
      exists input. split; [reflexivity|]. now injection Htoken as <-.
    - now injection Htoken as <-. }
  split; [exact Hne|]. split; [exact Hget|].
  unfold config.Load. cbn [config.TODOIST_API_TOKEN config.configFile].
  rewrite Henv. cbn [String.eqb negb].
  unfold config.MarshalIndent, config.Unmarshal.
  cbn [config.decodeMembers]. unfold config.isAPITokenKey.
  rewrite String.eqb_refl. cbn [orb config.APIToken].
  pose proof (toValidUTF8_nonempty token Hne) as Hvalid.
  apply String.eqb_neq in Hvalid. now rewrite Hvalid.
Qed.

End AuthCommand.

Lemma runAuth_then_Load_witness :
  (exists token,
     token = " 0123abcd " /\
     cmd.authToken (fun s => s) [" 0123abcd "] (Ok "never read") = Ok token /\
     token <> "" /\
     (fun _ : string => @None error) token = None /\
     config.Load (fun s => s)
       {| config.TODOIST_API_TOKEN := "";
          config.configFile :=
            config.Content
              (config.MarshalIndent (fun s => s)
                 {| config.APIToken := " 0123abcd " |}) |}
     = Ok {| config.APIToken := token |}) /\
  (exists token,
     (exists input,
        Ok " 0123abcd " = Ok input /\
        token = strings.TrimSpace (fun s => s) input) /\
     cmd.authToken (fun s => s) [] (Ok " 0123abcd ") = Ok token /\
     token <> "" /\
     (fun _ : string => @None error) token = None /\
     config.Load (fun s => s)
       {| config.TODOIST_API_TOKEN := "";
          config.configFile :=
            config.Content
              (config.MarshalIndent (fun s => s)
                 {| config.APIToken := "0123abcd" |}) |}
     = Ok {| config.APIToken := token |}).
Proof.
  split.
  - refine (runAuth_then_Load (fun s => s) (fun s => s) (fun s => s)
              (fun s H => H) [" 0123abcd "] (Ok "never read")
              (fun _ => None)
              {| config.TODOIST_API_TOKEN := "";
                 config.configFile := config.NotExist |}
              _ None None _ _); reflexivity.
  - refine (runAuth_then_Load (fun s => s) (fun s => s) (fun s => s)
              (fun s H => H) [] (Ok " 0123abcd ") (fun _ => None)
              {| config.TODOIST_API_TOKEN := "";
                 config.configFile := config.NotExist |}
              _ None None _ _); reflexivity.
Defined.

(** ** Instances *)

Lemma requestCtx_bounded_witness :
  snd (api.requestCtx
         {| api.marshalError := Some (LibraryError "json: unsupported type");
            api.newRequestError := None;
            api.Do := fun _ => api.respond 200 [] "{}";
            api.ctxDone := fun _ => None |})
  = [].
Proof.
  refine (proj2 (proj2 (requestCtx_bounded _)) _).
  left. discriminate.
Defined.

Lemma requestURL_query_witness :
  api.requestURL "GET" "tasks" (Some [("project_id", "12"); ("filter", "")])
  = "https://api.todoist.com/api/v1/tasks?project_id=12".
Proof.
  refine (proj1 (proj2 (requestURL_query "tasks"
                          [("project_id", "12"); ("filter", "")])) _).
  cbn. lia.
Defined.

Lemma searchTasks_spec_witness :
  In (api.taskOf "1" "Buy Milk" None)
    (cmd.searchTasks (fun s => s) "Milk"
       [api.taskOf "0" "Call home" None; api.taskOf "1" "Buy Milk" None]).
Proof.
  refine (proj2 (proj2 (proj2
            (searchTasks_spec (fun s => s) "Milk"
               [api.taskOf "0" "Call home" None;
                api.taskOf "1" "Buy Milk" None])))
            (api.taskOf "1" "Buy Milk" None) _ _ _).
  - right. left. reflexivity.
  - reflexivity.
  - exists "Buy ", "". reflexivity.
Defined.

Lemma addSectionID_spec_witness :
  cmd.addSectionID (fun s => s) "Done" "" (Err (LibraryError "not called"))
  = Ok "".
Proof.
  refine (proj1 (addSectionID_spec (fun s => s) "Done" ""
                   (Err (LibraryError "not called"))) _).
  right. reflexivity.
Defined.

Lemma sortLess_strict_weak_order_witness :
  cmd.sortLess (fun s => s) (fun _ => 0) "due"
    (api.taskOf "2" "later" (Some (api.dueOn "2030-01-01")))
    (api.taskOf "1" "some day" None) = true /\
  cmd.sortLess (fun s => s) (fun _ => 0) "due"
    (api.taskOf "1" "some day" None)
    (api.taskOf "2" "later" (Some (api.dueOn "2030-01-01"))) = false.
Proof.
  refine (proj2 (proj2 (proj2
            (sortLess_strict_weak_order (fun s => s) (fun _ => 0) "due")))
            (api.taskOf "2" "later" (Some (api.dueOn "2030-01-01")))
            (api.taskOf "1" "some day" None) _ _).
  - discriminate.
  - reflexivity.
Defined.

Lemma priority_flag_unchecked_witness :
  api.member "priority"
    (api.marshalAddTaskParams (cmd.addParams "Buy milk" "" "" [] 7))
  = Some (json.JNumber (itoa (5 - 7))).
Proof.
  refine (proj1 (proj2
            (proj2 (priority_flag_unchecked "Buy milk" "" "" []) 7 _))).
  lia.
Defined.

Lemma priority_shown_as_given_witness :
  output.priorityString
    (api.Add_Priority (cmd.addParams "Buy milk" "" "" [] 2))
  = "p" ++ itoa 2 /\
  cmd.viewPriorityLine
    (api.Add_Priority (cmd.addParams "Buy milk" "" "" [] 2))
  = ["Priority: p" ++ itoa 2 ++ cmd.newline].
Proof.
  refine (proj1 (priority_shown_as_given "Buy milk" "" "" []) 2 _).
  lia.
Defined.

Lemma WriteCompletedTasks_short_date_witness :
  snd (output.WriteCompletedTasks (fun _ s => s) "" ""
         [{| api.Completed_ID := "1"; api.Completed_TaskID := "7";
             api.Completed_Content := "Buy milk";
             api.Completed_ProjectID := "p1";
             api.Completed_CompletedAt := "" |}])
  = output.Panicked.
Proof.
  refine (proj2 (proj1
            (WriteCompletedTasks_short_date (fun _ s => s) "" ""
               [{| api.Completed_ID := "1"; api.Completed_TaskID := "7";
                   api.Completed_Content := "Buy milk";
                   api.Completed_ProjectID := "p1";
                   api.Completed_CompletedAt := "" |}])) _).
  eexists. split; [left; reflexivity|]. cbn. lia.
Defined.

Lemma Load_token_witness :
  config.Load (fun s => s)
    {| config.TODOIST_API_TOKEN := "0123abcd";
       config.configFile := config.Content json.Invalid |}
  = Ok {| config.APIToken := "0123abcd" |}.
Proof.
  refine (proj1 (proj2
            (Load_token (fun s => s)
               {| config.TODOIST_API_TOKEN := "0123abcd";
                  config.configFile := config.Content json.Invalid |})) _).
  discriminate.
Defined.

Lemma runDelete_confirmed_witness :
  cmd.confirmed (fun s => s) (fun s => s) (" Y" ++ cmd.newline) = true.
Proof.
  refine (proj2 (proj2 (proj2
            (runDelete_confirmed (fun s => s) (fun s => s) false false "7"
               (Ok (api.taskWithID "7")) (" Y" ++ cmd.newline) None))
            eq_refl) _).
  exists " ", "Y"%char, cmd.newline.
  split; [reflexivity|]. split; [reflexivity|]. split; [reflexivity|].
  right. reflexivity.
Defined.

(** ** The task tree *)

Section ListFacts.

Context {A B : Type}.

Lemma perm_interleave (a b c d : list A) :
  Permutation ((a ++ b) ++ (c ++ d))%list ((a ++ c) ++ (b ++ d))%list.
Proof.
  rewrite <- !app_assoc. apply Permutation_app_head.
  rewrite !app_assoc. apply Permutation_app_tail.
  apply Permutation_app_comm.
Qed.

Lemma flat_map_app_perm (f g : B -> list A) (l : list B) :
  Permutation (flat_map (fun x => f x ++ g x)%list l)
    (flat_map f l ++ flat_map g l)%list.
Proof.
  induction l as [|x l IH]; cbn [flat_map]; [constructor|].
  eapply Permutation_trans; [|apply perm_interleave].
  apply Permutation_app_head. exact IH.
Qed.

Lemma flat_map_none (sel : B -> bool) (c : A) (l : list B) :
  (forall p, In p l -> sel p = false) ->
  flat_map (fun p => if sel p then [c] else []) l = [].
Proof.
  induction l as [|x l IH]; [reflexivity|]. intros H. cbn [flat_map].
  rewrite (H x (or_introl eq_refl)). apply IH.
  intros p Hp. apply H. now right.
Qed.

Lemma flat_map_pick (sel : B -> bool) (c : A) (p0 : B) (l : list B) :
  NoDup l -> In p0 l -> sel p0 = true ->
  (forall p, In p l -> sel p = true -> p = p0) ->
  flat_map (fun p => if sel p then [c] else []) l = [c].
Proof.
  induction l as [|x l IH]; intros Hnd Hin Hsel Honly; [destruct Hin|].
  inversion Hnd as [|? ? Hx Hnd']; subst. cbn [flat_map].
  destruct Hin as [-> | Hin].
  - rewrite Hsel. rewrite flat_map_none; [reflexivity|].
    intros p Hp. destruct (sel p) eqn:Hs; [|reflexivity].
    exfalso. apply Hx. rewrite <- (Honly p (or_intror Hp) Hs). exact Hp.
  - destruct (sel x) eqn:Hs.
    + exfalso. apply Hx. rewrite (Honly x (or_introl eq_refl) Hs). exact Hin.
    + apply (IH Hnd' Hin Hsel). intros p Hp. apply Honly. now right.
Qed.

Lemma flat_map_filter_swap (q : B -> A -> bool) (ps : list B) (cs : list A) :
  Permutation (flat_map (fun p => filter (q p) cs) ps)
    (flat_map (fun c => flat_map (fun p => if q p c then [c] else []) ps) cs).
Proof.
  induction cs as [|c cs IH].
  - cbn. induction ps as [|p ps IHp]; [constructor | exact IHp].
  - cbn [flat_map].
    rewrite (flat_map_ext _
               (fun p => (if q p c then [c] else []) ++ filter (q p) cs)%list)
      by (intros p; cbn [filter]; now destruct (q p c)).
    eapply Permutation_trans; [apply flat_map_app_perm|].
    apply Permutation_app_head. exact IH.
Qed.

Lemma flat_map_if_filter (f : A -> bool) (l : list A) :
  flat_map (fun c => if f c then [c] else []) l = filter f l.
Proof.
  induction l as [|x l IH]; [reflexivity|]. cbn [flat_map filter].
  rewrite IH. now destruct (f x).
Qed.

Lemma NoDup_map_injective (f : A -> B) (l : list A) x y :
  NoDup (map f l) -> In x l -> In y l -> f x = f y -> x = y.
Proof.
  induction l as [|a l IH]; intros Hnd Hx Hy Hf; [destruct Hx|].
  cbn [map] in Hnd. inversion Hnd as [|? ? Ha Hnd']; subst.
  destruct Hx as [-> | Hx], Hy as [-> | Hy].
  - reflexivity.
  - exfalso. apply Ha. rewrite Hf. now apply in_map.
  - exfalso. apply Ha. rewrite <- Hf. now apply in_map.
  - exact (IH Hnd' Hx Hy Hf).
Qed.

Lemma filter_all (f : A -> bool) (l : list A) :
  (forall x, In x l -> f x = true) -> filter f l = l.
Proof.
  induction l as [|x l IH]; [reflexivity|]. intros H. cbn [filter].
  rewrite (H x (or_introl eq_refl)). f_equal. apply IH.
  intros y Hy. apply H. now right.
Qed.

Lemma filter_nothing (f : A -> bool) (l : list A) :
  (forall x, In x l -> f x = false) -> filter f l = [].
Proof.
  induction l as [|x l IH]; [reflexivity|]. intros H. cbn [filter].
  rewrite (H x (or_introl eq_refl)). apply IH.
  intros y Hy. apply H. now right.
Qed.

Lemma flat_map_ext_listed (f g : B -> list A) (l : list B) :
  (forall x, In x l -> f x = g x) -> flat_map f l = flat_map g l.
Proof.
  induction l as [|x l IH]; [reflexivity|]. intros H. cbn [flat_map].
  rewrite (H x (or_introl eq_refl)). f_equal. apply IH.
  intros y Hy. apply H. now right.
Qed.

End ListFacts.

Lemma WriteTasks_listed FormatTaskLine sortTasks fuel (tasks : list api.Task) :
  tasks <> [] ->
  output.WriteTasks FormatTaskLine sortTasks fuel tasks
  = output.gather
      (map (fun root =>
              output.printTaskRecursive FormatTaskLine sortTasks fuel tasks
                root 0)
         (output.roots sortTasks tasks)).
Proof. destruct tasks; [congruence | reflexivity]. Qed.

Section TaskTree.

Import output.

Variable FormatTaskLine : api.Task -> string.
Variable sortTasks : list api.Task -> list api.Task.
Variable tasks : list api.Task.
Variable depth : api.Task -> nat.
Variable height : nat.

Lemma below_nil m : below tasks m [] = [].
Proof. induction m as [|m IH]; [reflexivity|]. cbn. exact IH. Qed.

Lemma kids_perm l l' :
  Permutation l l' -> Permutation (kids tasks l) (kids tasks l').
Proof. intros H. unfold kids. now apply Permutation_flat_map. Qed.

Lemma below_perm m : forall l l',
  Permutation l l' -> Permutation (below tasks m l) (below tasks m l').
Proof.
  induction m as [|m IH]; intros l l' H; [exact H|].
  cbn [below]. apply Permutation_app; [exact H|].
  apply IH. now apply kids_perm.
Qed.

Lemma below_app m : forall l1 l2,
  Permutation (below tasks m (l1 ++ l2))
    (below tasks m l1 ++ below tasks m l2)%list.
Proof.
  induction m as [|m IH]; intros l1 l2; [reflexivity|].
  cbn [below]. unfold kids at 1. rewrite flat_map_app.
  eapply Permutation_trans; [|apply perm_interleave].
  apply Permutation_app_head. apply IH.
Qed.

Lemma below_flat m l :
  Permutation (flat_map (fun c => below tasks m [c]) l) (below tasks m l).
Proof.
  induction l as [|c l IH]; [now rewrite below_nil|].
  cbn [flat_map].
  eapply Permutation_trans; [apply Permutation_app_head, IH|].
  apply Permutation_sym. exact (below_app m [c] l).
Qed.

Lemma filter_depth_split (l : list api.Task) m :
  Permutation
    (filter (fun t => (depth t <=? m)%nat) l
     ++ filter (fun t => (depth t =? S m)%nat) l)%list
    (filter (fun t => (depth t <=? S m)%nat) l).
Proof.
  induction l as [|x l IH]; [constructor|]. cbn [filter].
  destruct (Nat.leb_spec (depth x) m) as [H1 | H1];
    destruct (Nat.eqb_spec (depth x) (S m)) as [H2 | H2];
    destruct (Nat.leb_spec (depth x) (S m)) as [H3 | H3];
    try lia.
  - cbn [app]. now constructor.
  - apply Permutation_sym, Permutation_cons_app, Permutation_sym, IH.
  - exact IH.
Qed.

(** What [gather] gives when every call returns the lines of some
    tasks. *)
Lemma gather_lines (F : api.Task -> option (list string))
    (G : api.Task -> list api.Task) (l : list api.Task) :
  (forall c, In c l ->
     exists printed : list (nat * api.Task),
       F c = Some (map (fun e => taskLine FormatTaskLine (fst e) (snd e))
                     printed) /\
       Permutation (map snd printed) (G c) /\
       (forall e, In e printed -> fst e = depth (snd e))) ->
  exists printed : list (nat * api.Task),
    gather (map F l)
    = Some (map (fun e => taskLine FormatTaskLine (fst e) (snd e)) printed) /\
    Permutation (map snd printed) (flat_map G l) /\
    (forall e, In e printed -> fst e = depth (snd e)).
Proof.
  induction l as [|c l IH]; intros H.
  - exists []. split; [reflexivity|]. split; [constructor|]. intros e [].
  - destruct (H c (or_introl eq_refl)) as (pc & Hc & Hpc & Hdc).
    destruct IH as (pl & Hl & Hpl & Hdl);
      [intros c' Hc'; apply H; now right|].
    exists (pc ++ pl)%list. split; [|split].
    + cbn [map gather]. now rewrite Hc, Hl, map_app.
    + rewrite map_app. cbn [flat_map]. now apply Permutation_app.
    + intros e He. apply in_app_or in He as [He | He]; auto.
Qed.

Hypothesis sortTasks_perm : forall l, Permutation l (sortTasks l).
Hypothesis depth_root :
  forall t, In t tasks -> isRoot tasks t = true -> depth t = 0%nat.
Hypothesis depth_child :
  forall p c, In p tasks -> In c tasks ->
    isChildOf (api.Task_ID p) c = true -> depth c = S (depth p).
Hypothesis depth_height : forall t, In t tasks -> (depth t <= height)%nat.

Lemma childrenOf_perm id :
  Permutation (childrenOf sortTasks tasks id) (filter (isChildOf id) tasks).
Proof.
  unfold childrenOf.
  destruct (filter (isChildOf id) tasks) as [|c cs]; [constructor|].
  apply Permutation_sym, sortTasks_perm.
Qed.

(** A task that is not a root has its parent in the list. *)
Lemma parent_listed c :
  isRoot tasks c = false ->
  exists p, In p tasks /\ isChildOf (api.Task_ID p) c = true.
Proof.
  unfold isRoot, isChildOf, inTaskMap. intros H.
  apply orb_false_iff in H as [Hne Hmap].
  apply negb_false_iff, existsb_exists in Hmap as (p & Hp & Hid).
  exists p. split; [exact Hp|]. rewrite Hne. cbn [negb andb].
  now rewrite String.eqb_sym.
Qed.

Lemma isRoot_depth t : In t tasks -> isRoot tasks t = (depth t =? 0)%nat.
Proof.
  intros Ht. destruct (isRoot tasks t) eqn:Hroot.
  - now rewrite (depth_root t Ht Hroot).
  - destruct (parent_listed t Hroot) as (p & Hp & Hchild).
    now rewrite (depth_child p t Hp Ht Hchild).
Qed.

Lemma printTaskRecursive_step fuel t level :
  printTaskRecursive FormatTaskLine sortTasks (S fuel) tasks t level
  = match gather
            (map (fun child =>
                    printTaskRecursive FormatTaskLine sortTasks fuel tasks
                      child (S level))
               (childrenOf sortTasks tasks (api.Task_ID t))) with
    | Some lines => Some (taskLine FormatTaskLine level t :: lines)
    | None => None
    end.
Proof. reflexivity. Qed.

Lemma walk_below m : forall t level,
  In t tasks -> depth t = level -> (height <= level + m)%nat ->
  exists printed : list (nat * api.Task),
    printTaskRecursive FormatTaskLine sortTasks (S m) tasks t level
    = Some (map (fun e => taskLine FormatTaskLine (fst e) (snd e)) printed) /\
    Permutation (map snd printed) (below tasks m [t]) /\
    (forall e, In e printed -> fst e = depth (snd e)).
Proof.
  induction m as [|m IH]; intros t level Ht Hd Hh.
  - rewrite printTaskRecursive_step.
    assert (Hnone : filter (isChildOf (api.Task_ID t)) tasks = []).
    { apply filter_nothing. intros c Hc.
      destruct (isChildOf (api.Task_ID t) c) eqn:Hchild; [|reflexivity].
      pose proof (depth_child t c Ht Hc Hchild) as Hdc.
      pose proof (depth_height c Hc) as Hle. exfalso.
      rewrite Hdc, Hd in Hle. rewrite Nat.add_0_r in Hh.
      exact (Nat.nle_succ_diag_l _ (Nat.le_trans _ _ _ Hle Hh)). }
    unfold childrenOf. rewrite Hnone. cbn [map gather].
    exists [(level, t)]. split; [reflexivity|].
    split; [reflexivity|]. intros e [<- | []]. cbn. now symmetry.
  - rewrite printTaskRecursive_step.
    destruct (gather_lines
                (fun child =>
                   printTaskRecursive FormatTaskLine sortTasks (S m) tasks
                     child (S level))
                (fun c => below tasks m [c])
                (childrenOf sortTasks tasks (api.Task_ID t)))
      as (pl & Hl & Hpl & Hdl).
    { intros c Hc.
      apply (Permutation_in _ (childrenOf_perm (api.Task_ID t))) in Hc.
      apply filter_In in Hc as [Hc Hchild].
      apply IH; [exact Hc | |].
      - rewrite (depth_child t c Ht Hc Hchild). now rewrite Hd.
      - rewrite Nat.add_succ_l, <- Nat.add_succ_r. exact Hh. }
    rewrite Hl. exists ((level, t) :: pl). split; [reflexivity|].
    split.
    + cbn [map snd below app]. constructor.
      eapply Permutation_trans; [exact Hpl|].
      eapply Permutation_trans; [apply below_flat|].
      apply below_perm.
      eapply Permutation_trans; [apply childrenOf_perm|].
      unfold kids. cbn [flat_map]. now rewrite app_nil_r.
    + intros e [<- | He]; [cbn; now symmetry | exact (Hdl e He)].
Qed.

Hypothesis ids_distinct : NoDup (map api.Task_ID tasks).

Lemma tasks_NoDup : NoDup tasks.
Proof. exact (NoDup_map_inv _ _ ids_distinct). Qed.

(** The children of the tasks of one depth are the tasks of the next. *)
Lemma kids_atDepth k :
  Permutation (kids tasks (atDepth depth tasks k))
    (atDepth depth tasks (S k)).
Proof.
  unfold kids.
  eapply Permutation_trans;
    [apply (flat_map_filter_swap (fun p => isChildOf (api.Task_ID p)))|].
  unfold atDepth at 2. rewrite <- flat_map_if_filter.
  assert (Heach : forall c, In c tasks ->
            flat_map
              (fun p => if isChildOf (api.Task_ID p) c then [c] else [])
              (atDepth depth tasks k)
            = if (depth c =? S k)%nat then [c] else []).
  { intros c Hc. destruct (depth c =? S k)%nat eqn:Hdc.
    - apply Nat.eqb_eq in Hdc.
      assert (Hnot : isRoot tasks c = false).
      { rewrite (isRoot_depth c Hc), Hdc. reflexivity. }
      destruct (parent_listed c Hnot) as (p0 & Hp0 & Hchild0).
      apply (flat_map_pick _ c p0).
      + apply NoDup_filter, tasks_NoDup.
      + apply filter_In. split; [exact Hp0|].
        pose proof (depth_child p0 c Hp0 Hc Hchild0) as H.
        rewrite Hdc in H. injection H as H. apply Nat.eqb_eq. now symmetry.
      + exact Hchild0.
      + intros p Hp Hchild. apply filter_In in Hp as [Hp _].
        apply (NoDup_map_injective api.Task_ID tasks p p0 ids_distinct Hp Hp0).
        unfold isChildOf in Hchild, Hchild0.
        apply andb_true_iff in Hchild as [_ H1].
        apply andb_true_iff in Hchild0 as [_ H2].
        apply String.eqb_eq in H1, H2. congruence.
    - apply flat_map_none. intros p Hp.
      apply filter_In in Hp as [Hp Hk]. apply Nat.eqb_eq in Hk.
      destruct (isChildOf (api.Task_ID p) c) eqn:Hchild; [|reflexivity].
      rewrite (depth_child p c Hp Hc Hchild), Hk, Nat.eqb_refl in Hdc.
      discriminate Hdc. }
  rewrite (flat_map_ext_listed _ _ _ Heach). reflexivity.
Qed.

Lemma below_levels m : forall k,
  Permutation (below tasks m (atDepth depth tasks k))
    (levels depth tasks k m).
Proof.
  induction m as [|m IH]; intros k.
  - unfold levels. cbn [below seq flat_map]. now rewrite app_nil_r.
  - cbn [below]. unfold levels. cbn [seq flat_map].
    apply Permutation_app_head.
    eapply Permutation_trans; [apply below_perm, kids_atDepth|].
    apply IH.
Qed.

Lemma levels_upto m :
  Permutation (levels depth tasks 0 m)
    (filter (fun t => (depth t <=? m)%nat) tasks).
Proof.
  induction m as [|m IH].
  - unfold levels, atDepth. cbn [seq flat_map]. rewrite app_nil_r.
    rewrite (filter_ext (fun t => (depth t =? 0)%nat)
               (fun t => (depth t <=? 0)%nat));
      [reflexivity|].
    intros t. now destruct (depth t).
  - unfold levels. rewrite seq_S, flat_map_app. cbn [flat_map].
    rewrite app_nil_r. fold (levels depth tasks 0 m).
    eapply Permutation_trans; [apply Permutation_app_tail, IH|].
    apply filter_depth_split.
Qed.

(** When the parent links of the listed tasks make a forest (each task
    has a depth, 0 for a root and one more than its parent's for a
    child) and no two tasks share an ID, [WriteTasks] returns, and it
    has printed one line for each task, no task twice and none left
    out, each at the level of its depth. *)
Theorem WriteTasks_forest (fuel : nat) :
  tasks <> [] -> (height < fuel)%nat ->
  exists printed : list (nat * api.Task),
    WriteTasks FormatTaskLine sortTasks fuel tasks
    = Some (map (fun e => taskLine FormatTaskLine (fst e) (snd e)) printed) /\
    Permutation (map snd printed) tasks /\
    (forall e, In e printed -> fst e = depth (snd e)).
Proof.
  intros Hne Hfuel. rewrite (WriteTasks_listed _ _ _ _ Hne).
  destruct fuel as [|m]; [inversion Hfuel|].
  apply (proj1 (Nat.lt_succ_r height m)) in Hfuel.
  destruct (gather_lines
              (fun root =>
                 printTaskRecursive FormatTaskLine sortTasks (S m) tasks
                   root 0)
              (fun r => below tasks m [r]) (roots sortTasks tasks))
    as (printed & Hlines & Hperm & Hdepth).
  { intros r Hr. unfold roots in Hr.
    apply (Permutation_in _ (Permutation_sym (sortTasks_perm _))) in Hr.
    apply filter_In in Hr as [Hr Hroot].
    apply walk_below; [exact Hr | exact (depth_root r Hr Hroot) | exact Hfuel]. }
  exists printed. split; [exact Hlines|]. split; [|exact Hdepth].
  eapply Permutation_trans; [exact Hperm|].
  eapply Permutation_trans; [apply below_flat|].
  eapply Permutation_trans;
    [apply below_perm, Permutation_sym, sortTasks_perm|].
  rewrite (filter_ext_in (isRoot tasks) (fun t => (depth t =? 0)%nat) tasks)
    by exact isRoot_depth.
  eapply Permutation_trans; [apply (below_levels m 0)|].
  eapply Permutation_trans; [apply levels_upto|].
  rewrite filter_all; [reflexivity|].
  intros t Ht. apply Nat.leb_le.
  exact (Nat.le_trans _ _ _ (depth_height t Ht) Hfuel).
Qed.

End TaskTree.

Lemma WriteTasks_forest_witness :
  exists printed : list (nat * api.Task),
    output.WriteTasks api.Task_Content (fun l => l) 2
      [api.subtaskOf "2" "1" "Pack"; api.subtaskOf "1" "" "Travel";
       api.subtaskOf "3" "9" "Call home"]
    = Some (map (fun e =>
                   output.taskLine api.Task_Content (fst e) (snd e))
              printed) /\
    Permutation (map snd printed)
      [api.subtaskOf "2" "1" "Pack"; api.subtaskOf "1" "" "Travel";
       api.subtaskOf "3" "9" "Call home"] /\
    (forall e, In e printed ->
       fst e = (if String.eqb (api.Task_ParentID (snd e)) "1"
                then 1 else 0)%nat).
Proof.
  refine (WriteTasks_forest api.Task_Content (fun l => l)
            [api.subtaskOf "2" "1" "Pack"; api.subtaskOf "1" "" "Travel";
             api.subtaskOf "3" "9" "Call home"]
            (fun t => if String.eqb (api.Task_ParentID t) "1"
                      then 1 else 0)%nat
            1 (fun l => Permutation_refl l) _ _ _ _ 2 _ _).
  - intros t [<- | [<- | [<- | []]]]; cbn; congruence.
  - intros p c [<- | [<- | [<- | []]]] [<- | [<- | [<- | []]]]; cbn;
      congruence.
  - intros t [<- | [<- | [<- | []]]]; cbn; lia.
  - repeat constructor; cbn; intuition discriminate.
  - discriminate.
  - lia.
Defined.
